(** * Discovery-and-transfer protocol of the throughput-measurement tool

    A shallow embedding of [Server.py] and [Client.py]: the fixed binary
    framing done with [struct.pack] / [struct.unpack], the server's
    per-request handlers and socket set-up, and the client's discovery
    listener and its two transfer workers.

    Conventions.
    - A Python [bytes] value is a [list byte]; a Python [int] is a [Z].
    - A [struct.error] (wrong arity, value out of range, wrong buffer
      length) is the [None] of an [option]; other exceptions are values of
      [exn] carried by [result].
    - What a blocking socket call returns is not decided by the program, so
      every loop that receives is driven by the list of things its socket
      calls returned, in order.  When that list is exhausted a loop
      without timeout is still blocked in its next call.
    - [time.time()] readings and the quotients computed from them are
      Python floats; they are embedded as exact rationals ([Q]). *)

From Stdlib Require Import String ZArith QArith List Lia Bool.
From Stdlib Require Import Strings.Byte.
From Stdlib Require Import Permutation.
Import ListNotations.

Local Open Scope Z_scope.

(** ** Exceptions and results *)

Inductive exn : Type :=
| StructError
| ZeroDivisionError
| ValueError
| SocketTimeout
| OSError.

Inductive result (A : Type) : Type :=
| Ok (a : A)
| Raise (e : exn).

Arguments Ok {A} a.
Arguments Raise {A} e.

Definition bind {A B : Type} (r : result A) (k : A -> result B) : result B :=
  match r with
  | Ok a => k a
  | Raise e => Raise e
  end.

Notation "x <- r ;; k" := (bind r (fun x => k))
  (at level 61, r at next level, right associativity).

(** A [struct.error] surfaces as an exception at the call site. *)
Definition of_struct {A : Type} (o : option A) : result A :=
  match o with
  | Some a => Ok a
  | None => Raise StructError
  end.

(** ** The [struct] codec, network byte order *)

Module Struct.

Definition bytes : Type := list byte.

Definition Z_of_byte (b : byte) : Z := Z.of_N (Byte.to_N b).

Definition byte_of_Z (z : Z) : byte :=
  match Byte.of_N (Z.to_N (z mod 256)) with
  | Some b => b
  | None => x00
  end.

(** The [n] low-order bytes of [v], most significant first. *)
Fixpoint be_encode (n : nat) (v : Z) : bytes :=
  match n with
  | O => []
  | S k => byte_of_Z (v / 2 ^ (8 * Z.of_nat k)) :: be_encode k v
  end.

Definition be_decode (bs : bytes) : Z :=
  fold_left (fun acc b => acc * 256 + Z_of_byte b) bs 0.

(** Format characters used by the program: [I] (u32), [B] (u8),
    [H] (u16), [Q] (u64).  With the [!] prefix there is no padding. *)
Inductive code : Type := FI | FB | FH | FQ.

Definition code_size (c : code) : nat :=
  match c with
  | FI => 4
  | FB => 1
  | FH => 2
  | FQ => 8
  end%nat.

Definition in_range (c : code) (v : Z) : bool :=
  (0 <=? v) && (v <? 2 ^ (8 * Z.of_nat (code_size c))).

Fixpoint calcsize (fmt : list code) : nat :=
  match fmt with
  | [] => O
  | c :: fmt' => (code_size c + calcsize fmt')%nat
  end.

Fixpoint pack (fmt : list code) (vals : list Z) : option bytes :=
  match fmt, vals with
  | [], [] => Some []
  | c :: fmt', v :: vals' =>
      if in_range c v
      then option_map (app (be_encode (code_size c) v)) (pack fmt' vals')
      else None
  | _, _ => None
  end.

Fixpoint unpack_fields (fmt : list code) (bs : bytes) : list Z :=
  match fmt with
  | [] => []
  | c :: fmt' =>
      be_decode (firstn (code_size c) bs)
        :: unpack_fields fmt' (skipn (code_size c) bs)
  end.

Definition unpack (fmt : list code) (bs : bytes) : option (list Z) :=
  if Nat.eqb (length bs) (calcsize fmt)
  then Some (unpack_fields fmt bs)
  else None.

(** Python slices [b[:n]] and [b[i:j]] for [0 <= i <= j]. *)
Definition slice_to (n : nat) (bs : bytes) : bytes := firstn n bs.
Definition slice (i j : nat) (bs : bytes) : bytes := firstn (j - i) (skipn i bs).

End Struct.

Import Struct.

(** ** Protocol constants (identical in both files) *)

Definition MAGIC_COOKIE : Z := 0xabcddcba.
Definition OFFER_MESSAGE_TYPE : Z := 0x2.
Definition REQUEST_MESSAGE_TYPE : Z := 0x3.
Definition PAYLOAD_MESSAGE_TYPE : Z := 0x4.
Definition UDP_PORT : Z := 14117.
Definition TCP_PORT : Z := 65432.
Definition BUFFER_SIZE : Z := 1024.

(** ['!IBHH'], ['!IBQ'] and ['!IBQQ']. *)
Definition offer_fmt : list code := [FI; FB; FH; FH].
Definition request_fmt : list code := [FI; FB; FQ].
Definition payload_fmt : list code := [FI; FB; FQ; FQ].

(** [b'X'] *)
Definition filler : byte := x58.

(** A peer address [(ip, port)]. *)
Definition address : Type := (string * Z)%type.

(** [sock.recvfrom(bufsize)] / [sock.recv(bufsize)] hand over at most
    [bufsize] bytes of what arrived. *)
Definition recv_buf (bufsize : Z) (arrived : bytes) : bytes :=
  firstn (Z.to_nat bufsize) arrived.

(** Python's [//], [len], true division and [b * n] on bytes. *)
Definition floordiv (a b : Z) : Z := a / b.
Definition len (bs : bytes) : Z := Z.of_nat (length bs).
Definition bytes_mul (b : byte) (n : Z) : bytes := repeat b (Z.to_nat n).

Definition truediv (a b : Q) : result Q :=
  if Qeq_bool b 0 then Raise ZeroDivisionError else Ok (a / b)%Q.

(** ** Server.py *)

Module Server.

(** [struct.pack('!IBHH', MAGIC_COOKIE, OFFER_MESSAGE_TYPE, udp, tcp)];
    [send_offers] packs it once, with the two port constants. *)
Definition offer_message (udp_port tcp_port : Z) : option bytes :=
  pack offer_fmt [MAGIC_COOKIE; OFFER_MESSAGE_TYPE; udp_port; tcp_port].

(** The datagrams broadcast by the first [rounds] turns of the
    [while True] loop of [send_offers]. *)
Definition send_offers (rounds : nat) : result (list (bytes * address)) :=
  msg <- of_struct (offer_message UDP_PORT TCP_PORT);;
  Ok (repeat (msg, ("<broadcast>"%string, UDP_PORT)) rounds).

(** [range(n)] *)
Definition range (n : Z) : list Z := map Z.of_nat (seq 0 (Z.to_nat n)).

Record send_state : Type := {
  sent : list (bytes * address);
  bytes_sent : Z
}.

(** One segment as [handle_udp_client] builds it: the packed header,
    then [b'X' * (BUFFER_SIZE - len(payload))]. *)
Definition segment (total_segments segment_num : Z) : option bytes :=
  match pack payload_fmt
          [MAGIC_COOKIE; PAYLOAD_MESSAGE_TYPE; total_segments; segment_num] with
  | Some payload =>
      Some (payload ++ bytes_mul filler (BUFFER_SIZE - len payload))
  | None => None
  end.

(** The [for segment_num in range(total_segments)] loop.  [sendto_ok n]
    tells whether the transport takes the datagram of segment [n]; a
    failing [pack] or [sendto] leaves the loop with its exception. *)
Fixpoint send_loop (sendto_ok : Z -> bool) (client_address : address)
    (total_segments : Z) (segment_nums : list Z) (st : send_state)
  : send_state * option exn :=
  match segment_nums with
  | [] => (st, None)
  | segment_num :: rest =>
      match segment total_segments segment_num with
      | None => (st, Some StructError)
      | Some payload =>
          if sendto_ok segment_num
          then send_loop sendto_ok client_address total_segments rest
                 {| sent := sent st ++ [(payload, client_address)];
                    bytes_sent := bytes_sent st + len payload |}
          else (st, Some OSError)
      end
  end.

Record handler_run : Type := {
  total_segments : Z;
  datagrams : list (bytes * address);
  handed_over : Z;
  (** the speed printed, or the exception printed by the [except] clause *)
  report : result Q
}.

Definition handle_udp_client (sendto_ok : Z -> bool) (start_time end_time : Q)
    (client_address : address) (file_size : Z) : handler_run :=
  let total_segments := floordiv file_size BUFFER_SIZE in
  let '(st, raised) :=
    send_loop sendto_ok client_address total_segments (range total_segments)
      {| sent := []; bytes_sent := 0 |} in
  {| total_segments := total_segments;
     datagrams := sent st;
     handed_over := bytes_sent st;
     report :=
       match raised with
       | Some e => Raise e
       | None =>
           q <- truediv (inject_Z (bytes_sent st)) (end_time - start_time);;
           Ok (q * 8)%Q
       end |}.

(** What the server loops do, in order. *)
Inductive action : Type :=
| SetSockOpt (level option : string) (value : Z)
| Bind (addr : address)
| Listen
| SpawnTcpHandler (client_address : address)
| SpawnUdpHandler (client_address : address) (file_size : Z)
| LogError (e : exn).

(** [start_tcp_server]: socket set-up, then one turn of the accept loop
    per entry of [accepts]. *)
Definition start_tcp_server (accepts : list (result address)) : list action :=
  [ SetSockOpt "SOL_SOCKET" "SO_REUSEADDR" 1;
    Bind ("172.20.10.3"%string, TCP_PORT);
    Listen ]
  ++ map (fun a => match a with
                   | Ok client_address => SpawnTcpHandler client_address
                   | Raise e => LogError e
                   end) accepts.

(** The body of the [try] in [start_udp_server] for one datagram. *)
Definition udp_request (arrived : bytes) (client_address : address)
  : result (option (address * Z)) :=
  let data := recv_buf BUFFER_SIZE arrived in
  if 13 <=? len data then
    fields <- of_struct (unpack request_fmt (slice_to 13 data));;
    match fields with
    | [cookie; message_type; file_size] =>
        if (cookie =? MAGIC_COOKIE) && (message_type =? REQUEST_MESSAGE_TYPE)
        then Ok (Some (client_address, file_size))
        else Ok None
    | _ => Raise ValueError
    end
  else Ok None.

Definition udp_turn (ev : result (bytes * address)) : list action :=
  match (p <- ev;; udp_request (fst p) (snd p)) with
  | Ok (Some (client_address, file_size)) =>
      [SpawnUdpHandler client_address file_size]
  | Ok None => []
  | Raise e => [LogError e]
  end.

Definition start_udp_server (arrivals : list (result (bytes * address)))
  : list action :=
  [ SetSockOpt "SOL_SOCKET" "SO_REUSEADDR" 1;
    Bind ("172.20.10.3"%string, UDP_PORT) ]
  ++ flat_map udp_turn arrivals.

(** The address a run bound its socket to. *)
Fixpoint bound_to (acts : list action) : option address :=
  match acts with
  | [] => None
  | Bind addr :: _ => Some addr
  | _ :: rest => bound_to rest
  end.

End Server.

(** ** Client.py *)

Module Client.

(** The body of the [try] in [listen_for_offers] once [recvfrom] has
    returned [(message, address)]: [Ok (Some _)] is the [return], [Ok None]
    falls through to the next turn of the loop. *)
Definition offer_step (message : bytes) (addr : address)
  : result (option (string * Z * Z)) :=
  if 9 <=? len message then
    fields <- of_struct (unpack offer_fmt (slice_to 9 message));;
    match fields with
    | [cookie; message_type; udp_port; tcp_port] =>
        if (cookie =? MAGIC_COOKIE) && (message_type =? OFFER_MESSAGE_TYPE)
        then Ok (Some (fst addr, tcp_port, udp_port))
        else Ok None
    | _ => Raise ValueError
    end
  else Ok None.

Record listening : Type := {
  (** [Some (ip, tcp_port, udp_port)] once the function has returned *)
  offer : option (string * Z * Z);
  (** the exceptions printed by the [except] clause so far *)
  logged : list exn
}.

(** [listen_for_offers], driven by what each [recvfrom] call gave: a
    datagram with its sender, or an exception. *)
Fixpoint listen_for_offers (arrivals : list (result (bytes * address)))
  : listening :=
  match arrivals with
  | [] => {| offer := None; logged := [] |}
  | ev :: rest =>
      match (p <- ev;; offer_step (recv_buf BUFFER_SIZE (fst p)) (snd p)) with
      | Ok (Some r) => {| offer := Some r; logged := [] |}
      | Ok None => listen_for_offers rest
      | Raise e =>
          let l := listen_for_offers rest in
          {| offer := offer l; logged := e :: logged l |}
      end
  end.

(** How a receive loop stands after the calls it was given. *)
Inductive loop_outcome : Type :=
| Completed (received : Z)
| Raised (e : exn)
| Blocked (received : Z).

(** The [while received < file_size] loop of [tcp_transfer]; each entry of
    [reads] is what one [tcp_socket.recv(BUFFER_SIZE)] returned ([b''] once
    the peer has closed). *)
Fixpoint tcp_recv_loop (file_size received : Z) (reads : list (result bytes))
  : loop_outcome :=
  if received <? file_size then
    match reads with
    | [] => Blocked received
    | Ok data :: rest => tcp_recv_loop file_size (received + len data) rest
    | Raise e :: _ => Raised e
    end
  else Completed received.

Inductive tcp_outcome : Type :=
| TcpFinished (received : Z) (elapsed speed : Q)
| TcpError (e : exn)
| TcpBlocked (received : Z).

(** [tcp_transfer]; [connected] is the outcome of [connect] and [sendall]. *)
Definition tcp_transfer (connected : result unit) (start_time end_time : Q)
    (file_size : Z) (reads : list (result bytes)) : tcp_outcome :=
  match connected with
  | Raise e => TcpError e
  | Ok _ =>
      match tcp_recv_loop file_size 0 reads with
      | Blocked received => TcpBlocked received
      | Raised e => TcpError e
      | Completed received =>
          match truediv (inject_Z received) (end_time - start_time) with
          | Ok q => TcpFinished received (end_time - start_time) (q * 8)%Q
          | Raise e => TcpError e
          end
      end
  end.

(** One turn of the [while time.time() - start_time < 1] loop of
    [udp_transfer], as seen from the program. *)
Inductive observation : Type :=
| Arrival (datagram : bytes)      (* in the window, [recvfrom] returned *)
| RecvTimeout                     (* in the window, [socket.timeout]: break *)
| RecvError (e : exn)             (* in the window, another exception *)
| WindowClosed.                   (* the loop condition is false *)

Record counters : Type := {
  received_segments : Z;
  total_received : Z
}.

(** The [if len(data) >= 20:] statement. *)
Definition count_datagram (data : bytes) (c : counters) : counters :=
  if 20 <=? len data
  then {| received_segments := received_segments c + 1;
          total_received := total_received c + (len data - 20) |}
  else c.

(** The receive loop of [udp_transfer].  Every [recvfrom] there has a
    timeout, so the loop always ends; an exhausted list stands for the
    window having closed. *)
Fixpoint udp_recv_loop (obs : list observation) (c : counters)
  : result counters :=
  match obs with
  | [] => Ok c
  | Arrival datagram :: rest =>
      udp_recv_loop rest (count_datagram (recv_buf BUFFER_SIZE datagram) c)
  | RecvTimeout :: _ => Ok c
  | RecvError e :: _ => Raise e
  | WindowClosed :: _ => Ok c
  end.

Definition success_rate_of (received_segments total_segments : Z) : Q :=
  if total_segments >? 0
  then (inject_Z received_segments / inject_Z total_segments * 100)%Q
  else 0%Q.

Definition speed_of (total_received : Z) (start_time end_time : Q) : Q :=
  if negb (Qle_bool end_time start_time)
  then (inject_Z total_received / (end_time - start_time) * 8)%Q
  else 0%Q.

Record udp_report : Type := {
  total_segments : Z;
  segments_seen : Z;
  bytes_seen : Z;
  success_rate : Q;
  speed : Q
}.

(** [udp_transfer]: open the socket, pack the request and send it, run the
    receive loop, then compute the two figures it prints.  [opened] is the
    outcome of [socket.socket(...)], [request_sent] the outcome of the
    [sendto] of the request, whose argument is packed before the call.
    [Raise e] is the outer [except]. *)
Definition udp_transfer (opened request_sent : result unit)
    (start_time end_time : Q) (file_size : Z)
    (obs : list observation) : result udp_report :=
  let total_segments := floordiv file_size BUFFER_SIZE in
  _socket <- opened;;
  _request <- of_struct
    (pack request_fmt [MAGIC_COOKIE; REQUEST_MESSAGE_TYPE; file_size]);;
  _sent <- request_sent;;
  c <- udp_recv_loop obs {| received_segments := 0; total_received := 0 |};;
  Ok {| total_segments := total_segments;
        segments_seen := received_segments c;
        bytes_seen := total_received c;
        success_rate := success_rate_of (received_segments c) total_segments;
        speed := speed_of (total_received c) start_time end_time |}.

End Client.

(** ** Vocabulary of the statements *)

(** The fields of a datagram, read straight off the wire layout: magic
    in bytes 0..3, type in byte 4, then the kind-specific fields. *)
Definition wire_magic (m : bytes) : Z := be_decode (slice 0 4 m).
Definition wire_type (m : bytes) : Z := be_decode (slice 4 5 m).
Definition wire_u16 (i : nat) (m : bytes) : Z := be_decode (slice i (i + 2) m).
Definition wire_u64 (i : nat) (m : bytes) : Z := be_decode (slice i (i + 8) m).

(** The bytes a stream handed to the reads that precede its first error. *)
Fixpoint delivered (reads : list (result bytes)) : Z :=
  match reads with
  | Ok data :: rest => len data + delivered rest
  | _ => 0
  end.

(** A peer that sends [chunks] and then closes: every later [recv]
    returns [b'']. *)
Definition closed_after (chunks : list bytes) (later : nat)
  : list (result bytes) :=
  map Ok chunks ++ repeat (Ok []) later.

Definition no_counters : Client.counters :=
  {| Client.received_segments := 0; Client.total_received := 0 |}.

(** The payload segment of the wire format: the 21-byte header (magic,
    type, total_segments, segment_index) padded with filler to the fixed
    segment size. *)
Definition expected_segment (total index : Z) : bytes :=
  be_encode 4 MAGIC_COOKIE ++ be_encode 1 PAYLOAD_MESSAGE_TYPE
    ++ be_encode 8 total ++ be_encode 8 index ++ repeat filler 1003.

(** ** Server.py, the reliable handler *)

Module TcpHandler.

(** What [handle_tcp_client] does on its connection and prints. *)
Inductive conn_action : Type :=
| CSend (data : bytes)
| CPrintSpeed (bytes_sent : Z) (speed : Q)
| CPrintError (e : exn)
| CShutdown (outcome : result unit)
| CClose.

Record send_state : Type := {
  calls : list conn_action;
  bytes_sent : Z
}.

Inductive status : Type :=
| Done
| Failed (e : exn)
| Pending.

(** The [while bytes_sent < file_size] loop.  Each entry of [sends] is
    what one [connection.send(data)] gave: the count it returned, which
    the code drops, or an exception. *)
Fixpoint send_loop (data : bytes) (file_size : Z) (st : send_state)
    (sends : list (result Z)) : send_state * status :=
  if bytes_sent st <? file_size then
    match sends with
    | [] => (st, Pending)
    | Ok _ :: rest =>
        send_loop data file_size
          {| calls := calls st ++ [CSend data];
             bytes_sent := bytes_sent st + len data |} rest
    | Raise e :: _ => (st, Failed e)
    end
  else (st, Done).

(** [handle_tcp_client].  [request] is the outcome of
    [int(connection.recv(BUFFER_SIZE).decode().strip())], [shutdown] the
    outcome of [connection.shutdown(socket.SHUT_RDWR)].  [None]: the
    handler is still blocked in a [send]. *)
Definition handle_tcp_client (request : result Z) (sends : list (result Z))
    (start_time end_time : Q) (shutdown : result unit)
  : option (list conn_action) :=
  let finally := [CShutdown shutdown; CClose] in
  match request with
  | Raise e => Some ([CPrintError e] ++ finally)
  | Ok file_size =>
      let data := bytes_mul filler BUFFER_SIZE in
      match send_loop data file_size {| calls := []; bytes_sent := 0 |} sends with
      | (_, Pending) => None
      | (st, Failed e) => Some (calls st ++ [CPrintError e] ++ finally)
      | (st, Done) =>
          match truediv (inject_Z (bytes_sent st)) (end_time - start_time) with
          | Ok q =>
              Some (calls st ++ [CPrintSpeed (bytes_sent st) (q * 8)%Q]
                      ++ finally)
          | Raise e => Some (calls st ++ [CPrintError e] ++ finally)
          end
      end
  end.

End TcpHandler.

(** ** Client.py, the worker launcher *)

Module Orchestrator.

(** [range(a, b)] *)
Definition range_from (a b : Z) : list Z :=
  map (fun k => a + Z.of_nat k) (seq 0 (Z.to_nat (b - a))).

(** A started thread: its number in the "started" line, its target
    function and the arguments it was given. *)
Inductive worker : Type :=
| TcpWorker (i : Z) (server_ip : string) (tcp_port file_size : Z)
| UdpWorker (i : Z) (server_ip : string) (udp_port file_size : Z).

(** [start_client] up to the joins: the three numbers read from the
    console, then the threads in the order they are started.  [None]: the
    client is still listening for an offer. *)
Definition start_client (file_size tcp_connections udp_connections : Z)
    (arrivals : list (result (bytes * address))) : option (list worker) :=
  match Client.offer (Client.listen_for_offers arrivals) with
  | None => None
  | Some (server_ip, tcp_port, udp_port) =>
      Some (map (fun i => TcpWorker i server_ip tcp_port file_size)
              (range_from 1 (tcp_connections + 1))
            ++ map (fun i => UdpWorker i server_ip udp_port file_size)
                 (range_from 1 (udp_connections + 1)))
  end.

End Orchestrator.

(** ** More vocabulary *)

(** The three tests of the discovery listener and of the request loop. *)
Definition is_offer (m : bytes) : bool :=
  (9 <=? len m) && (wire_magic m =? MAGIC_COOKIE)
  && (wire_type m =? OFFER_MESSAGE_TYPE).

Definition is_request (m : bytes) : bool :=
  (13 <=? len m) && (wire_magic m =? MAGIC_COOKIE)
  && (wire_type m =? REQUEST_MESSAGE_TYPE).

(** The exceptions among the outcomes of a socket call, in order. *)
Fixpoint raised {A : Type} (l : list (result A)) : list exn :=
  match l with
  | [] => []
  | Ok _ :: rest => raised rest
  | Raise e :: rest => e :: raised rest
  end.

(** An arrival the discovery listener passes over without returning. *)
Definition passed_over (ev : result (bytes * address)) : Prop :=
  match ev with
  | Ok (arrived, _) => is_offer (recv_buf BUFFER_SIZE arrived) = false
  | Raise _ => True
  end.

(** The chunks a handler run put on its connection. *)
Fixpoint sent_data (trace : list TcpHandler.conn_action) : list bytes :=
  match trace with
  | [] => []
  | TcpHandler.CSend data :: rest => data :: sent_data rest
  | _ :: rest => sent_data rest
  end.

(** The number of whole-or-partial 1024-byte chunks that cover [S] bytes. *)
Definition chunks_for (S : Z) : Z := (S + 1023) / 1024.

(** * Properties *)

(** ** The codec *)

Section Codec.

Lemma Z_of_byte_of_Z (z : Z) : Z_of_byte (byte_of_Z z) = z mod 256.
Proof.
  unfold Z_of_byte, byte_of_Z.
  assert (Hb : 0 <= z mod 256 < 256) by (apply Z.mod_pos_bound; lia).
  destruct (Byte.of_N (Z.to_N (z mod 256))) as [b|] eqn:E.
  - apply Byte.to_of_N in E. rewrite E. apply Z2N.id. lia.
  - apply Byte.of_N_None_iff in E. lia.
Qed.

Lemma length_be_encode (n : nat) (v : Z) : length (be_encode n v) = n.
Proof. induction n as [|k IH]; cbn [be_encode length]; congruence. Qed.

Lemma be_fold_encode (n : nat) (v acc : Z) :
  fold_left (fun a b => a * 256 + Z_of_byte b) (be_encode n v) acc
  = acc * 2 ^ (8 * Z.of_nat n) + v mod 2 ^ (8 * Z.of_nat n).
Proof.
  revert acc. induction n as [|k IH]; intro acc.
  - cbn [be_encode fold_left]. change (8 * Z.of_nat 0) with 0.
    rewrite Z.pow_0_r, Z.mod_1_r. lia.
  - cbn [be_encode fold_left]. rewrite IH, Z_of_byte_of_Z.
    replace (8 * Z.of_nat (S k)) with (8 * Z.of_nat k + 8) by lia.
    rewrite Z.pow_add_r by lia. change (2 ^ 8) with 256.
    set (p := 2 ^ (8 * Z.of_nat k)).
    assert (Hp : 0 < p) by (apply Z.pow_pos_nonneg; lia).
    rewrite (Z.rem_mul_r v p 256) by lia. lia.
Qed.

Lemma be_decode_encode (n : nat) (v : Z) :
  0 <= v < 2 ^ (8 * Z.of_nat n) -> be_decode (be_encode n v) = v.
Proof.
  intro Hv. unfold be_decode. rewrite be_fold_encode.
  rewrite Z.mod_small by assumption. lia.
Qed.

Lemma in_range_spec (c : code) (v : Z) :
  in_range c v = true <-> 0 <= v < 2 ^ (8 * Z.of_nat (code_size c)).
Proof.
  unfold in_range. rewrite andb_true_iff, Z.leb_le, Z.ltb_lt. tauto.
Qed.

Lemma pack_length (fmt : list code) :
  forall vals bs, pack fmt vals = Some bs -> length bs = calcsize fmt.
Proof.
  induction fmt as [|c fmt IH]; intros [|v vals] bs H; cbn [pack] in H;
    try discriminate.
  - now inversion H.
  - destruct (in_range c v); [|discriminate].
    destruct (pack fmt vals) as [tl|] eqn:E; [|discriminate].
    cbn [option_map] in H. inversion H; subst.
    rewrite length_app, length_be_encode. cbn [calcsize].
    now rewrite (IH _ _ E).
Qed.

Lemma unpack_fields_pack (fmt : list code) :
  forall vals bs, pack fmt vals = Some bs -> unpack_fields fmt bs = vals.
Proof.
  induction fmt as [|c fmt IH]; intros [|v vals] bs H; cbn [pack] in H;
    try discriminate.
  - reflexivity.
  - destruct (in_range c v) eqn:R; [|discriminate].
    destruct (pack fmt vals) as [tl|] eqn:E; [|discriminate].
    cbn [option_map] in H. inversion H; subst. cbn [unpack_fields].
    pose proof (length_be_encode (code_size c) v) as L.
    rewrite firstn_app, skipn_app, L, Nat.sub_diag.
    rewrite firstn_all2, skipn_all2 by lia.
    cbn [firstn skipn app]. rewrite app_nil_r.
    rewrite be_decode_encode by (now apply in_range_spec).
    now rewrite (IH _ _ E).
Qed.

(** What [pack] produced, [unpack] reads back. *)
Lemma unpack_pack (fmt : list code) (vals : list Z) (bs : bytes) :
  pack fmt vals = Some bs -> unpack fmt bs = Some vals.
Proof.
  intro H. unfold unpack.
  rewrite (pack_length _ _ _ H), Nat.eqb_refl.
  now rewrite (unpack_fields_pack _ _ _ H).
Qed.

(** [pack] succeeds exactly on as many values as codes, each in range. *)
Lemma pack_ok (fmt : list code) :
  forall vals,
    Forall2 (fun c v => in_range c v = true) fmt vals ->
    exists bs, pack fmt vals = Some bs.
Proof.
  induction fmt as [|c fmt IH]; intros vals H; inversion H; subst.
  - now exists [].
  - destruct (IH _ H4) as [tl E]. cbn [pack]. rewrite H2, E.
    cbn [option_map]. eauto.
Qed.

Lemma recv_buf_short (bufsize : Z) (arrived : bytes) :
  len arrived <= bufsize -> recv_buf bufsize arrived = arrived.
Proof.
  unfold len, recv_buf. intro H. apply firstn_all2. lia.
Qed.

End Codec.

(** ** Discovery *)

Section Discovery.

Lemma unpack_offer_fields (m : bytes) :
  9 <= len m ->
  unpack offer_fmt (slice_to 9 m)
  = Some [wire_magic m; wire_type m; wire_u16 5 m; wire_u16 7 m].
Proof.
  unfold len. intro H.
  do 9 (destruct m as [|? m]; [cbn [length] in H; lia|]).
  reflexivity.
Qed.

(** The listener's test is exactly: long enough, right magic, right type;
    and it never raises. *)
Lemma offer_step_spec (m : bytes) (addr : address) :
  Client.offer_step m addr
  = Ok (if (9 <=? len m) && (wire_magic m =? MAGIC_COOKIE)
           && (wire_type m =? OFFER_MESSAGE_TYPE)
        then Some (fst addr, wire_u16 7 m, wire_u16 5 m)
        else None).
Proof.
  unfold Client.offer_step.
  destruct (9 <=? len m) eqn:E; [|reflexivity].
  apply Z.leb_le in E. rewrite (unpack_offer_fields m E).
  cbn [of_struct bind andb].
  now destruct ((wire_magic m =? MAGIC_COOKIE)
                && (wire_type m =? OFFER_MESSAGE_TYPE)).
Qed.

Lemma offer_message_ok (udp_port tcp_port : Z) :
  0 <= udp_port < 65536 -> 0 <= tcp_port < 65536 ->
  exists msg, Server.offer_message udp_port tcp_port = Some msg.
Proof.
  intros Hu Ht. apply pack_ok.
  repeat constructor; apply in_range_spec; cbn; lia.
Qed.

End Discovery.

(** C5.  For all 16-bit values [udp_port] and [tcp_port], the offer packed
    as the server does (magic 0xABCDDCBA, type 0x2, the two ports, layout
    ['!IBHH']) is 9 bytes long, and the discovery listener, given that
    datagram, returns with exactly the [tcp_port] and [udp_port] that were
    packed (and the sender's IP). *)
Theorem offer_roundtrip (udp_port tcp_port : Z) (addr : address) :
  0 <= udp_port < 65536 ->
  0 <= tcp_port < 65536 ->
  exists msg,
    Server.offer_message udp_port tcp_port = Some msg
    /\ len msg = 9
    /\ unpack offer_fmt msg
       = Some [MAGIC_COOKIE; OFFER_MESSAGE_TYPE; udp_port; tcp_port]
    /\ Client.offer_step (recv_buf BUFFER_SIZE msg) addr
       = Ok (Some (fst addr, tcp_port, udp_port))
    /\ forall rest,
         Client.offer (Client.listen_for_offers (Ok (msg, addr) :: rest))
         = Some (fst addr, tcp_port, udp_port).
Proof.
  intros Hu Ht.
  destruct (offer_message_ok udp_port tcp_port Hu Ht) as [msg Hmsg].
  exists msg. unfold Server.offer_message in *.
  pose proof (pack_length _ _ _ Hmsg) as L.
  pose proof (unpack_pack _ _ _ Hmsg) as U.
  assert (Hlen : len msg = 9) by (unfold len; rewrite L; reflexivity).
  assert (Hstep : Client.offer_step (recv_buf BUFFER_SIZE msg) addr
                  = Ok (Some (fst addr, tcp_port, udp_port))).
  { rewrite recv_buf_short by (rewrite Hlen; unfold BUFFER_SIZE; lia).
    unfold Client.offer_step. rewrite Hlen. cbn [Z.leb Z.compare Pos.compare Pos.compare_cont].
    unfold slice_to. rewrite firstn_all2 by (rewrite L; cbn; lia).
    rewrite U. cbn [of_struct bind].
    now rewrite !Z.eqb_refl. }
  repeat split; try assumption.
  intro rest. cbn [Client.listen_for_offers bind fst snd].
  now rewrite Hstep.
Qed.

Lemma offer_roundtrip_witness :
  exists msg,
    Server.offer_message UDP_PORT TCP_PORT = Some msg
    /\ len msg = 9
    /\ unpack offer_fmt msg
       = Some [MAGIC_COOKIE; OFFER_MESSAGE_TYPE; UDP_PORT; TCP_PORT]
    /\ Client.offer_step (recv_buf BUFFER_SIZE msg) ("10.0.0.7"%string, 40000)
       = Ok (Some ("10.0.0.7"%string, TCP_PORT, UDP_PORT))
    /\ forall rest,
         Client.offer (Client.listen_for_offers
                         (Ok (msg, ("10.0.0.7"%string, 40000)) :: rest))
         = Some ("10.0.0.7"%string, TCP_PORT, UDP_PORT).
Proof.
  apply (offer_roundtrip UDP_PORT TCP_PORT ("10.0.0.7"%string, 40000));
    unfold UDP_PORT, TCP_PORT; lia.
Defined.

(** C6.  The discovery listener returns only upon a datagram that (as
    received) is at least 9 bytes long, has magic 0xABCDDCBA and type 0x2,
    and then returns the sender's IP with the two advertised ports; a
    datagram that is too short, or has another magic, or another type, is
    dropped by a step that does not raise, and the listener goes on with
    the following arrivals exactly as if that datagram had not come. *)
Theorem discovery_returns_only_on_offer
    (arrivals : list (result (bytes * address))) :
  (forall r,
      Client.offer (Client.listen_for_offers arrivals) = Some r ->
      exists before arrived addr after,
        arrivals = before ++ Ok (arrived, addr) :: after
        /\ 9 <= len (recv_buf BUFFER_SIZE arrived)
        /\ wire_magic (recv_buf BUFFER_SIZE arrived) = MAGIC_COOKIE
        /\ wire_type (recv_buf BUFFER_SIZE arrived) = OFFER_MESSAGE_TYPE
        /\ r = (fst addr,
                wire_u16 7 (recv_buf BUFFER_SIZE arrived),
                wire_u16 5 (recv_buf BUFFER_SIZE arrived)))
  /\ (forall arrived addr,
        len (recv_buf BUFFER_SIZE arrived) < 9
        \/ wire_magic (recv_buf BUFFER_SIZE arrived) <> MAGIC_COOKIE
        \/ wire_type (recv_buf BUFFER_SIZE arrived) <> OFFER_MESSAGE_TYPE ->
        Client.offer_step (recv_buf BUFFER_SIZE arrived) addr = Ok None
        /\ Client.listen_for_offers (Ok (arrived, addr) :: arrivals)
           = Client.listen_for_offers arrivals).
Proof.
  split.
  - induction arrivals as [|ev rest IH]; intros r H.
    + discriminate H.
    + cbn [Client.listen_for_offers] in H.
      destruct ev as [[arrived addr]|e]; cbn [bind fst snd] in H.
      * rewrite offer_step_spec in H.
        destruct ((9 <=? len (recv_buf BUFFER_SIZE arrived))
                  && (wire_magic (recv_buf BUFFER_SIZE arrived) =? MAGIC_COOKIE)
                  && (wire_type (recv_buf BUFFER_SIZE arrived)
                      =? OFFER_MESSAGE_TYPE)) eqn:E.
        -- apply andb_true_iff in E as [E Ety].
           apply andb_true_iff in E as [Elen Emagic].
           apply Z.leb_le in Elen. apply Z.eqb_eq in Emagic, Ety.
           cbn [Client.offer] in H. inversion H; subst r.
           exists [], arrived, addr, rest. now repeat split.
        -- destruct (IH r H) as (before & a & ad & after & -> & Hrest).
           exists (Ok (arrived, addr) :: before), a, ad, after.
           split; [reflexivity | exact Hrest].
      * cbn [Client.offer] in H.
        destruct (IH r H) as (before & a & ad & after & -> & Hrest).
        exists (Raise e :: before), a, ad, after.
        split; [reflexivity | exact Hrest].
  - intros arrived addr Hbad.
    assert (Hstep : Client.offer_step (recv_buf BUFFER_SIZE arrived) addr
                    = Ok None).
    { rewrite offer_step_spec.
      destruct ((9 <=? len (recv_buf BUFFER_SIZE arrived))
                && (wire_magic (recv_buf BUFFER_SIZE arrived) =? MAGIC_COOKIE)
                && (wire_type (recv_buf BUFFER_SIZE arrived)
                    =? OFFER_MESSAGE_TYPE)) eqn:E; [|reflexivity].
      apply andb_true_iff in E as [E Ety].
      apply andb_true_iff in E as [Elen Emagic].
      apply Z.leb_le in Elen. apply Z.eqb_eq in Emagic, Ety.
      destruct Hbad as [Hb|[Hb|Hb]]; [lia | contradiction | contradiction]. }
    split; [exact Hstep|].
    cbn [Client.listen_for_offers bind fst snd]. now rewrite Hstep.
Qed.

Lemma discovery_returns_only_on_offer_witness :
  let wrong_magic := [x00; x00; x00; x00; x02; x37; x25; xff; x98] in
  let genuine := [xab; xcd; xdc; xba; x02; x37; x25; xff; x98] in
  let peer := ("10.0.0.7"%string, 14117) in
  Client.listen_for_offers [Ok (wrong_magic, peer); Ok (genuine, peer)]
  = Client.listen_for_offers [Ok (genuine, peer)]
  /\ exists before arrived addr after,
       [Ok (genuine, peer)] = before ++ Ok (arrived, addr) :: after
       /\ 9 <= len (recv_buf BUFFER_SIZE arrived)
       /\ wire_magic (recv_buf BUFFER_SIZE arrived) = MAGIC_COOKIE
       /\ wire_type (recv_buf BUFFER_SIZE arrived) = OFFER_MESSAGE_TYPE
       /\ ("10.0.0.7"%string, 65432, 14117)
          = (fst addr,
             wire_u16 7 (recv_buf BUFFER_SIZE arrived),
             wire_u16 5 (recv_buf BUFFER_SIZE arrived)).
Proof.
  intros wrong_magic genuine peer.
  destruct (discovery_returns_only_on_offer [Ok (genuine, peer)])
    as [Honly Hdrop].
  split.
  - apply (Hdrop wrong_magic peer). right; left. vm_compute. discriminate.
  - apply Honly. reflexivity.
Defined.

(** ** The unreliable path, server side *)

Section UdpHandler.

Lemma length_expected_segment (total index : Z) :
  length (expected_segment total index) = 1024%nat.
Proof.
  unfold expected_segment.
  rewrite !length_app, !length_be_encode, repeat_length. reflexivity.
Qed.

Lemma pack_payload (total index : Z) :
  0 <= total < 2 ^ 64 -> 0 <= index < 2 ^ 64 ->
  pack payload_fmt [MAGIC_COOKIE; PAYLOAD_MESSAGE_TYPE; total; index]
  = Some (be_encode 4 MAGIC_COOKIE ++ be_encode 1 PAYLOAD_MESSAGE_TYPE
            ++ be_encode 8 total ++ be_encode 8 index).
Proof.
  intros Ht Hi.
  assert (Rt : in_range FQ total = true) by (apply in_range_spec; exact Ht).
  assert (Ri : in_range FQ index = true) by (apply in_range_spec; exact Hi).
  unfold payload_fmt. cbn [pack code_size].
  change (in_range FI MAGIC_COOKIE) with true.
  change (in_range FB PAYLOAD_MESSAGE_TYPE) with true.
  rewrite Rt, Ri. cbn [option_map]. now rewrite app_nil_r.
Qed.

Lemma expected_segment_split (total index : Z) :
  expected_segment total index
  = (be_encode 4 MAGIC_COOKIE ++ be_encode 1 PAYLOAD_MESSAGE_TYPE
       ++ be_encode 8 total ++ be_encode 8 index) ++ repeat filler 1003.
Proof. unfold expected_segment. now rewrite <- !app_assoc. Qed.

(** In range, the handler's segment is the wire format's segment. *)
Lemma segment_expected (total index : Z) :
  0 <= total < 2 ^ 64 -> 0 <= index < 2 ^ 64 ->
  Server.segment total index = Some (expected_segment total index).
Proof.
  intros Ht Hi. unfold Server.segment. rewrite (pack_payload _ _ Ht Hi).
  unfold expected_segment, len.
  rewrite !length_app, !length_be_encode. rewrite <- !app_assoc.
  reflexivity.
Qed.

Lemma send_loop_all (sendto_ok : Z -> bool) (client : address) (total : Z) :
  (forall n, sendto_ok n = true) ->
  0 <= total < 2 ^ 64 ->
  forall nums st,
    Forall (fun n => 0 <= n < 2 ^ 64) nums ->
    Server.send_loop sendto_ok client total nums st
    = ({| Server.sent :=
            Server.sent st
              ++ map (fun i => (expected_segment total i, client)) nums;
          Server.bytes_sent :=
            Server.bytes_sent st + 1024 * Z.of_nat (length nums) |},
       None).
Proof.
  intros Hok Ht nums. induction nums as [|n nums IH]; intros st Hn.
  - cbn [Server.send_loop map length]. rewrite app_nil_r.
    destruct st; cbn [Server.sent Server.bytes_sent]. do 2 f_equal. lia.
  - inversion Hn; subst. cbn [Server.send_loop].
    rewrite (segment_expected _ _ Ht H1), Hok, (IH _ H2).
    cbn [Server.sent Server.bytes_sent map length].
    rewrite <- app_assoc. cbn [app]. unfold len.
    rewrite length_expected_segment. do 2 f_equal. lia.
Qed.

Lemma range_bounded (n : Z) :
  Forall (fun i => 0 <= i < n) (Server.range n).
Proof.
  unfold Server.range. apply Forall_forall. intros i Hi.
  apply in_map_iff in Hi as (k & <- & Hk). apply in_seq in Hk. lia.
Qed.

Lemma nth_error_range (n : Z) (i : nat) :
  (i < Z.to_nat n)%nat ->
  nth_error (Server.range n) i = Some (Z.of_nat i).
Proof.
  intro H. unfold Server.range. rewrite nth_error_map, nth_error_seq.
  apply Nat.ltb_lt in H. now rewrite H.
Qed.

End UdpHandler.

(** C1.  For every size [S] carried by a well-formed request (the datagram
    the client packs with ['!IBQ']), the server hands [S] to its handler,
    and the handler, as long as the transport takes each datagram, computes
    [total_segments = S // 1024] and sends exactly that many datagrams to
    the requester: the [i]-th (from 0) is 1024 bytes long, its first 21
    bytes unpack to magic, PAYLOAD, [total_segments] and index [i], and
    the other 1003 bytes are filler.  Nothing is sent for the remainder:
    the bytes handed over are [1024 * (S // 1024)]. *)
Theorem udp_handler_sends_floor_segments
    (S : Z) (request : bytes) (client : address)
    (sendto_ok : Z -> bool) (start_time end_time : Q) :
  pack request_fmt [MAGIC_COOKIE; REQUEST_MESSAGE_TYPE; S] = Some request ->
  (forall n, sendto_ok n = true) ->
  let run := Server.handle_udp_client sendto_ok start_time end_time client S in
  let total := floordiv S 1024 in
  Server.udp_request request client = Ok (Some (client, S))
  /\ Server.total_segments run = total
  /\ length (Server.datagrams run) = Z.to_nat total
  /\ Server.datagrams run
     = map (fun i => (expected_segment total i, client)) (Server.range total)
  /\ (forall i, (i < Z.to_nat total)%nat ->
        exists body,
          nth_error (Server.datagrams run) i = Some (body, client)
          /\ len body = 1024
          /\ unpack payload_fmt (slice_to 21 body)
             = Some [MAGIC_COOKIE; PAYLOAD_MESSAGE_TYPE; total; Z.of_nat i]
          /\ skipn 21 body = repeat filler 1003)
  /\ Server.handed_over run = 1024 * total
  /\ Server.handed_over run <= S.
Proof.
  intros Hreq Hok run total.
  (* the request carries a u64 *)
  assert (HS : 0 <= S < 2 ^ 64).
  { unfold request_fmt in Hreq. cbn [pack] in Hreq.
    change (in_range FI MAGIC_COOKIE) with true in Hreq.
    change (in_range FB REQUEST_MESSAGE_TYPE) with true in Hreq.
    destruct (in_range FQ S) eqn:R; [|discriminate].
    now apply in_range_spec in R. }
  assert (Htot : 0 <= total < 2 ^ 64).
  { unfold total, floordiv.
    pose proof (Z.div_pos S 1024 ltac:(lia) ltac:(lia)).
    pose proof (Z.div_le_upper_bound S 1024 S ltac:(lia) ltac:(lia)). lia. }
  assert (Hrun :
    Server.send_loop sendto_ok client total (Server.range total)
      {| Server.sent := []; Server.bytes_sent := 0 |}
    = ({| Server.sent :=
            map (fun i => (expected_segment total i, client))
              (Server.range total);
          Server.bytes_sent :=
            1024 * Z.of_nat (length (Server.range total)) |}, None)).
  { rewrite (send_loop_all sendto_ok client total Hok Htot).
    - reflexivity.
    - eapply Forall_impl; [|apply range_bounded]. cbn beta. intros; lia. }
  assert (Hlen : length (Server.range total) = Z.to_nat total).
  { unfold Server.range. now rewrite length_map, length_seq. }
  assert (Hdata : Server.datagrams run
                  = map (fun i => (expected_segment total i, client))
                      (Server.range total)).
  { unfold run, Server.handle_udp_client. fold total.
    change BUFFER_SIZE with 1024. fold total. now rewrite Hrun. }
  assert (Hover : Server.handed_over run = 1024 * total).
  { unfold run, Server.handle_udp_client.
    change BUFFER_SIZE with 1024. fold total. rewrite Hrun.
    cbn [Server.handed_over Server.bytes_sent]. rewrite Hlen. lia. }
  split; [|split; [|split; [|split; [|split; [|split]]]]].
  - pose proof (pack_length _ _ _ Hreq) as L.
    pose proof (unpack_pack _ _ _ Hreq) as U.
    unfold Server.udp_request.
    rewrite recv_buf_short
      by (unfold len; rewrite L; unfold BUFFER_SIZE; cbn; lia).
    assert (E : (13 <=? len request) = true)
      by (apply Z.leb_le; unfold len; rewrite L; cbn; lia).
    rewrite E. unfold slice_to.
    rewrite firstn_all2 by (rewrite L; cbn; lia).
    rewrite U. cbn [of_struct bind]. now rewrite !Z.eqb_refl.
  - unfold run, Server.handle_udp_client.
    destruct (Server.send_loop _ _ _ _ _) as [st raised]. reflexivity.
  - now rewrite Hdata, length_map.
  - exact Hdata.
  - intros i Hi. exists (expected_segment total (Z.of_nat i)).
    assert (Hidx : 0 <= Z.of_nat i < 2 ^ 64) by lia.
    split; [|split; [|split]].
    + rewrite Hdata, nth_error_map, (nth_error_range _ _ Hi). reflexivity.
    + unfold len. now rewrite length_expected_segment.
    + pose proof (pack_payload _ _ Htot Hidx) as P.
      pose proof (pack_length _ _ _ P) as L.
      change (calcsize payload_fmt) with 21%nat in L.
      unfold slice_to. rewrite expected_segment_split.
      rewrite firstn_app, L, Nat.sub_diag, firstn_all2 by lia.
      cbn [firstn]. rewrite app_nil_r.
      now apply unpack_pack.
    + pose proof (pack_payload _ _ Htot Hidx) as P.
      pose proof (pack_length _ _ _ P) as L.
      change (calcsize payload_fmt) with 21%nat in L.
      rewrite expected_segment_split.
      rewrite skipn_app, L, Nat.sub_diag, skipn_all2 by lia.
      reflexivity.
  - exact Hover.
  - rewrite Hover. unfold total, floordiv.
    pose proof (Z.mul_div_le S 1024 ltac:(lia)). lia.
Qed.

Lemma udp_handler_sends_floor_segments_witness :
  let request :=
    [xab; xcd; xdc; xba; x03; x00; x00; x00; x00; x00; x00; x28; x00] in
  let client := ("10.0.0.7"%string, 50000) in
  let run := Server.handle_udp_client (fun _ => true) 0 1 client 10240 in
  pack request_fmt [MAGIC_COOKIE; REQUEST_MESSAGE_TYPE; 10240] = Some request
  /\ Server.udp_request request client = Ok (Some (client, 10240))
  /\ Server.total_segments run = 10
  /\ length (Server.datagrams run) = 10%nat
  /\ Server.handed_over run = 10240.
Proof.
  intros request client run.
  destruct (udp_handler_sends_floor_segments 10240 request client
              (fun _ => true) 0 1) as (H1 & H2 & H3 & _ & _ & H6 & _).
  - reflexivity.
  - reflexivity.
  - split; [reflexivity|]. repeat split; assumption.
Defined.

(** ** The unreliable path, client side *)

Section UdpClient.

Lemma count_datagram_counts (data : bytes) (c : Client.counters) :
  20 <= len data ->
  Client.count_datagram data c
  = {| Client.received_segments := Client.received_segments c + 1;
       Client.total_received := Client.total_received c + (len data - 20) |}.
Proof.
  intro H. unfold Client.count_datagram.
  apply Z.leb_le in H. now rewrite H.
Qed.

Lemma count_datagram_mono (data : bytes) (c : Client.counters) :
  Client.received_segments c
  <= Client.received_segments (Client.count_datagram data c).
Proof.
  unfold Client.count_datagram.
  destruct (20 <=? len data); cbn [Client.received_segments]; lia.
Qed.

Lemma udp_recv_loop_mono (obs : list Client.observation) :
  forall c c',
    Client.udp_recv_loop obs c = Ok c' ->
    Client.received_segments c <= Client.received_segments c'.
Proof.
  induction obs as [|o rest IH]; intros c c' H.
  - inversion H. lia.
  - destruct o; cbn [Client.udp_recv_loop] in H;
      try (inversion H; lia).
    apply IH in H. pose proof (count_datagram_mono
      (recv_buf BUFFER_SIZE datagram) c). lia.
Qed.

Lemma success_rate_of_nonneg (seen total : Z) :
  0 <= seen -> (0 <= Client.success_rate_of seen total)%Q.
Proof.
  intro H. unfold Client.success_rate_of.
  destruct total as [|p|p]; cbn [Z.gtb Z.compare]; try apply Qle_refl.
  unfold Qle, Qdiv, Qmult, Qinv, inject_Z.
  cbn [Qnum Qden Z.mul Pos.mul]. lia.
Qed.

Lemma success_rate_of_le_100 (seen total : Z) :
  seen <= total -> (Client.success_rate_of seen total <= 100)%Q.
Proof.
  intro H. unfold Client.success_rate_of.
  destruct total as [|p|p]; cbn [Z.gtb Z.compare];
    unfold Qle, Qdiv, Qmult, Qinv, inject_Z; cbn; lia.
Qed.

Lemma success_rate_of_gt_100 (seen total : Z) :
  0 < total -> total < seen ->
  (100 < Client.success_rate_of seen total)%Q.
Proof.
  intros Ht H. unfold Client.success_rate_of.
  destruct total as [|p|p]; try lia. cbn [Z.gtb Z.compare].
  unfold Qlt, Qdiv, Qmult, Qinv, inject_Z. cbn. lia.
Qed.

(** What has to go well before the receive loop of [udp_transfer]. *)
Lemma udp_transfer_inv (opened request_sent : result unit)
    (start_time end_time : Q) (S : Z) (obs : list Client.observation)
    (r : Client.udp_report) :
  Client.udp_transfer opened request_sent start_time end_time S obs = Ok r ->
  exists c,
    Client.udp_recv_loop obs
      {| Client.received_segments := 0; Client.total_received := 0 |} = Ok c
    /\ r = {| Client.total_segments := floordiv S BUFFER_SIZE;
              Client.segments_seen := Client.received_segments c;
              Client.bytes_seen := Client.total_received c;
              Client.success_rate :=
                Client.success_rate_of (Client.received_segments c)
                  (floordiv S BUFFER_SIZE);
              Client.speed :=
                Client.speed_of (Client.total_received c)
                  start_time end_time |}.
Proof.
  unfold Client.udp_transfer. intro H.
  destruct opened as [[]|e0]; cbn [bind] in H; [|discriminate].
  destruct (pack request_fmt [MAGIC_COOKIE; REQUEST_MESSAGE_TYPE; S]);
    cbn [of_struct bind] in H; [|discriminate].
  destruct request_sent as [[]|e1]; cbn [bind] in H; [|discriminate].
  destruct (Client.udp_recv_loop obs _) as [c|e] eqn:L;
    cbn [bind] in H; [|discriminate].
  exists c. split; [reflexivity|]. now inversion H.
Qed.

End UdpClient.

(** C2 (amended).  Whenever [udp_transfer] reports, [total_segments] is
    [S // 1024], the success rate is received-segment count over
    [total_segments] times 100, it is never negative, it is 0 when
    [total_segments = 0], it is at most 100 provided the number of
    counted arrivals does not exceed [total_segments], and it is above 100
    when [total_segments > 0] and the count exceeds [total_segments]. *)
Theorem success_rate_bounds
    (opened request_sent : result unit)
    (start_time end_time : Q) (S : Z) (obs : list Client.observation)
    (r : Client.udp_report) :
  Client.udp_transfer opened request_sent start_time end_time S obs = Ok r ->
  Client.total_segments r = floordiv S 1024
  /\ Client.success_rate r
     = Client.success_rate_of (Client.segments_seen r) (Client.total_segments r)
  /\ (0 <= Client.success_rate r)%Q
  /\ (Client.total_segments r = 0 -> Client.success_rate r = 0%Q)
  /\ (Client.segments_seen r <= Client.total_segments r ->
      (Client.success_rate r <= 100)%Q)
  /\ (0 < Client.total_segments r ->
      Client.total_segments r < Client.segments_seen r ->
      (100 < Client.success_rate r)%Q).
Proof.
  intro H. apply udp_transfer_inv in H as (c & L & ->).
  cbn [Client.total_segments Client.success_rate Client.segments_seen].
  change BUFFER_SIZE with 1024.
  apply udp_recv_loop_mono in L. cbn [Client.received_segments] in L.
  split; [reflexivity|]. split; [reflexivity|]. split; [|split; [|split]].
  - now apply success_rate_of_nonneg.
  - intro Z0. unfold Client.success_rate_of. now rewrite Z0.
  - apply success_rate_of_le_100.
  - apply success_rate_of_gt_100.
Qed.

Lemma success_rate_bounds_witness :
  let seg := expected_segment 2 0 in
  exists r,
    Client.udp_transfer (Ok tt) (Ok tt) 0 1 2048
      [Client.Arrival seg; Client.RecvTimeout]
    = Ok r
    /\ Client.total_segments r = 2
    /\ (Client.success_rate r == 50)%Q
    /\ (0 <= Client.success_rate r)%Q
    /\ (Client.success_rate r <= 100)%Q.
Proof.
  intro seg.
  destruct (Client.udp_transfer (Ok tt) (Ok tt) 0 1 2048
              [Client.Arrival seg; Client.RecvTimeout]) as [r|e] eqn:E;
    [|discriminate E].
  exists r.
  destruct (success_rate_bounds (Ok tt) (Ok tt) 0 1 2048
              [Client.Arrival seg; Client.RecvTimeout] r E)
    as (Ht & Hr & H0 & _ & H100 & _).
  injection E as <-.
  split; [reflexivity|]. split; [reflexivity|]. split; [reflexivity|].
  split; [exact H0|]. apply H100. vm_compute. discriminate.
Defined.

(** C2, as stated, fails: with [S = 1024] one segment is expected; when
    that segment arrives twice the client counts two arrivals and computes
    a success rate of 200. *)
Lemma duplicate_arrival_rate_200 :
  let seg := expected_segment 1 0 in
  exists r,
    Client.udp_transfer (Ok tt) (Ok tt) 0 1 1024
      [Client.Arrival seg; Client.Arrival seg]
    = Ok r
    /\ Client.total_segments r = floordiv 1024 1024
    /\ Client.segments_seen r = 2
    /\ (Client.success_rate r == 200)%Q
    /\ ~ (0 <= Client.success_rate r <= 100)%Q.
Proof.
  intro seg. eexists. split; [vm_compute; reflexivity|].
  cbn [Client.total_segments Client.segments_seen Client.success_rate].
  split; [reflexivity|]. split; [reflexivity|]. split; [reflexivity|].
  intros [_ H]. vm_compute in H. now apply H.
Qed.

(** C3.  What the code does with a full segment: the client accepts every
    datagram of at least 20 bytes and adds its length minus 20, so a
    1024-byte segment adds 1004 bytes to the accumulator, although the
    payload header packed with ['!IBQQ'] is 21 bytes long and the segment
    carries 1003 bytes after it. *)
Theorem full_segment_adds_1004 (data : bytes) (c : Client.counters) :
  len data = 1024 ->
  Client.count_datagram (recv_buf BUFFER_SIZE data) c
  = {| Client.received_segments := Client.received_segments c + 1;
       Client.total_received := Client.total_received c + 1004 |}
  /\ Z.of_nat (calcsize payload_fmt) = 21
  /\ len data - Z.of_nat (calcsize payload_fmt) = 1003.
Proof.
  intro H. split; [|split].
  - rewrite recv_buf_short by (rewrite H; reflexivity).
    rewrite count_datagram_counts by lia. now rewrite H.
  - reflexivity.
  - rewrite H. reflexivity.
Qed.

Lemma full_segment_adds_1004_witness :
  Client.count_datagram (recv_buf BUFFER_SIZE (expected_segment 10 3))
    no_counters
  = {| Client.received_segments := 0 + 1;
       Client.total_received := 0 + 1004 |}
  /\ Z.of_nat (calcsize payload_fmt) = 21
  /\ len (expected_segment 10 3) - Z.of_nat (calcsize payload_fmt) = 1003.
Proof.
  apply (full_segment_adds_1004 (expected_segment 10 3) no_counters).
  reflexivity.
Defined.

(** C7.  What the code does with foreign traffic: the receive loop of
    [udp_transfer] looks at the length only.  A 1024-byte datagram of
    zeros (magic 0, type 0) and a 21-byte datagram with the right magic
    but the OFFER type are both counted as received segments and both add
    to the byte accumulator. *)
Theorem foreign_datagram_is_counted :
  let zeros := repeat x00 1024 in
  let offer_typed := [xab; xcd; xdc; xba; x02] ++ repeat x00 16 in
  wire_magic zeros <> MAGIC_COOKIE
  /\ wire_type zeros <> PAYLOAD_MESSAGE_TYPE
  /\ Client.udp_recv_loop [Client.Arrival zeros] no_counters
     = Ok {| Client.received_segments := 1; Client.total_received := 1004 |}
  /\ wire_magic offer_typed = MAGIC_COOKIE
  /\ wire_type offer_typed <> PAYLOAD_MESSAGE_TYPE
  /\ Client.udp_recv_loop [Client.Arrival offer_typed] no_counters
     = Ok {| Client.received_segments := 1; Client.total_received := 1 |}.
Proof.
  intros zeros offer_typed.
  repeat split; try (vm_compute; discriminate); vm_compute; reflexivity.
Qed.

(** ** The reliable path, client side *)

Section TcpClient.

Lemma len_nonneg (data : bytes) : 0 <= len data.
Proof. unfold len. lia. Qed.

Lemma delivered_nonneg (reads : list (result bytes)) : 0 <= delivered reads.
Proof.
  induction reads as [|[data|e] rest IH]; cbn [delivered]; try lia.
  pose proof (len_nonneg data). lia.
Qed.

Lemma tcp_recv_loop_exit (file_size received : Z) (reads : list (result bytes)) :
  file_size <= received ->
  Client.tcp_recv_loop file_size received reads = Client.Completed received.
Proof.
  intro H. apply Z.ltb_ge in H.
  destruct reads as [|[data|e] rest]; cbn [Client.tcp_recv_loop];
    now rewrite H.
Qed.

Lemma tcp_recv_loop_read (file_size received : Z) (data : bytes)
    (rest : list (result bytes)) :
  received < file_size ->
  Client.tcp_recv_loop file_size received (Ok data :: rest)
  = Client.tcp_recv_loop file_size (received + len data) rest.
Proof.
  intro H. apply Z.ltb_lt in H. cbn [Client.tcp_recv_loop]. now rewrite H.
Qed.

(** The loop is left through its condition only with the target reached. *)
Lemma tcp_recv_loop_completed (file_size : Z) (reads : list (result bytes)) :
  forall received n,
    Client.tcp_recv_loop file_size received reads = Client.Completed n ->
    file_size <= n
    /\ (received < file_size -> file_size <= received + delivered reads).
Proof.
  induction reads as [|[data|e] rest IH]; intros received n H;
    cbn [Client.tcp_recv_loop] in H;
    destruct (received <? file_size) eqn:C;
    try discriminate;
    try (apply Z.ltb_ge in C; inversion H; subst; split; lia).
  apply Z.ltb_lt in C. destruct (IH _ _ H) as [Hn Hd].
  split; [exact Hn|]. intros _. cbn [delivered].
  pose proof (delivered_nonneg rest).
  destruct (Z.lt_ge_cases (received + len data) file_size); lia.
Qed.

(** What the counter holds when the loop is left: the lengths of the
    reads it consumed, a prefix of the reads that stops at the first read
    reaching the target. *)
Lemma tcp_recv_loop_consumed (file_size : Z) (reads : list (result bytes)) :
  forall received n,
    Client.tcp_recv_loop file_size received reads = Client.Completed n ->
    exists consumed rest,
      reads = map Ok consumed ++ rest
      /\ n = received + delivered (map Ok consumed)
      /\ (consumed <> [] ->
          received + delivered (map Ok (removelast consumed)) < file_size).
Proof.
  assert (Exit : forall reads received n,
            Client.Completed received = Client.Completed n ->
            exists consumed rest,
              reads = map Ok consumed ++ rest
              /\ n = received + delivered (map Ok consumed)
              /\ (consumed <> [] ->
                  received + delivered (map Ok (removelast consumed))
                  < file_size)).
  { intros l received n H. inversion H; subst. exists [], l.
    cbn [map app delivered]. split; [reflexivity|].
    split; [lia | congruence]. }
  induction reads as [|[data|e] rest IH]; intros received n H;
    cbn [Client.tcp_recv_loop] in H;
    destruct (received <? file_size) eqn:C.
  - discriminate.
  - now apply Exit.
  - apply Z.ltb_lt in C. apply IH in H as (consumed & rest' & -> & -> & Hmin).
    exists (data :: consumed), rest'. cbn [map app delivered].
    split; [reflexivity|]. split; [lia|]. intros _.
    destruct consumed as [|d consumed].
    + cbn [removelast map delivered]. lia.
    + change (removelast (data :: d :: consumed))
        with (data :: removelast (d :: consumed)).
      cbn [map delivered]. specialize (Hmin ltac:(discriminate)). lia.
  - now apply Exit.
  - discriminate.
  - now apply Exit.
Qed.

(** Enough bytes on the stream make the loop end. *)
Lemma tcp_recv_loop_total (file_size : Z) (reads : list (result bytes)) :
  forall received,
    file_size <= received + delivered reads ->
    exists n, Client.tcp_recv_loop file_size received reads
              = Client.Completed n.
Proof.
  induction reads as [|[data|e] rest IH]; intros received H;
    cbn [delivered] in H.
  - exists received. apply tcp_recv_loop_exit. lia.
  - destruct (Z.lt_ge_cases received file_size) as [C|C].
    + rewrite tcp_recv_loop_read by exact C. apply IH. lia.
    + exists received. now apply tcp_recv_loop_exit.
  - exists received. apply tcp_recv_loop_exit. lia.
Qed.

(** After a short stream has been closed the loop stays in its body. *)
Lemma tcp_recv_loop_closed (file_size : Z) (chunks : list bytes) (later : nat) :
  forall received,
    received + delivered (map Ok chunks) < file_size ->
    Client.tcp_recv_loop file_size received (closed_after chunks later)
    = Client.Blocked (received + delivered (map Ok chunks)).
Proof.
  unfold closed_after.
  induction chunks as [|data chunks IH]; intros received H;
    cbn [map delivered app] in *.
  - rewrite Z.add_0_r in *. induction later as [|k IHk]; cbn [repeat].
    + cbn [Client.tcp_recv_loop]. apply Z.ltb_lt in H. now rewrite H.
    + rewrite tcp_recv_loop_read by exact H.
      change (len []) with 0. now rewrite Z.add_0_r.
  - pose proof (delivered_nonneg (map Ok chunks)).
    pose proof (len_nonneg data).
    rewrite tcp_recv_loop_read by lia.
    rewrite IH by lia. f_equal. lia.
Qed.

(** With a positive elapsed time the reported speed is not negative. *)
Lemma tcp_speed_nonneg (received : Z) (elapsed q : Q) :
  0 <= received -> (0 < elapsed)%Q ->
  truediv (inject_Z received) elapsed = Ok q -> (0 <= q * 8)%Q.
Proof.
  intros Hr He. unfold truediv.
  destruct (Qeq_bool elapsed 0); [discriminate|].
  intro H. inversion H; subst q.
  apply Qmult_le_0_compat; [|discriminate].
  apply Qle_shift_div_l; [exact He|].
  rewrite Qmult_0_l. change 0%Q with (inject_Z 0). now rewrite <- Zle_Qle.
Qed.

End TcpClient.

(** The part of the throughput claim that the code keeps: with a positive
    elapsed time a completed transfer reports bits over seconds, not
    negative. *)
Lemma tcp_transfer_reports (start_time end_time : Q) (S n : Z)
    (reads : list (result bytes)) :
  0 <= S -> (start_time < end_time)%Q ->
  Client.tcp_recv_loop S 0 reads = Client.Completed n ->
  exists speed,
    Client.tcp_transfer (Ok tt) start_time end_time S reads
    = Client.TcpFinished n (end_time - start_time) speed
    /\ (speed == inject_Z n * 8 / (end_time - start_time))%Q
    /\ (0 <= speed)%Q.
Proof.
  intros HS Ht Hloop.
  assert (He : (0 < end_time - start_time)%Q)
    by (now rewrite <- (Qlt_minus_iff start_time end_time)).
  assert (Hn : 0 <= n) by (apply tcp_recv_loop_completed in Hloop; lia).
  unfold Client.tcp_transfer. rewrite Hloop.
  destruct (truediv (inject_Z n) (end_time - start_time)) as [q|e] eqn:D.
  - exists (q * 8)%Q. split; [reflexivity|]. split.
    + unfold truediv in D.
      destruct (Qeq_bool (end_time - start_time) 0); [discriminate|].
      inversion D. field. intro Z0. rewrite Z0 in He. discriminate.
    + now apply (tcp_speed_nonneg n (end_time - start_time)).
  - unfold truediv in D.
    destruct (Qeq_bool (end_time - start_time) 0) eqn:Z0; [|discriminate].
    apply Qeq_bool_iff in Z0. rewrite Z0 in He. discriminate.
Qed.

(** C4.  What the code does at zero elapsed time: [tcp_transfer] divides
    by [end_time - start_time] with no test, so a transfer that completed
    with equal clock readings raises ZeroDivisionError, which the worker
    reports as a transfer error instead of a throughput; [udp_transfer]
    tests [end_time > start_time] first and reports 0. *)
Theorem tcp_transfer_divides_by_zero_elapsed
    (start_time end_time : Q) (S n : Z) (reads : list (result bytes)) :
  (start_time == end_time)%Q ->
  Client.tcp_recv_loop S 0 reads = Client.Completed n ->
  Client.tcp_transfer (Ok tt) start_time end_time S reads
  = Client.TcpError ZeroDivisionError
  /\ Client.speed_of n start_time end_time = 0%Q.
Proof.
  intros Ht Hloop. split.
  - unfold Client.tcp_transfer, truediv. rewrite Hloop.
    assert (Z0 : Qeq_bool (end_time - start_time) 0 = true).
    { apply Qeq_bool_iff. rewrite Ht. apply Qplus_opp_r. }
    now rewrite Z0.
  - unfold Client.speed_of.
    assert (L : Qle_bool end_time start_time = true).
    { apply Qle_bool_iff. rewrite Ht. apply Qle_refl. }
    now rewrite L.
Qed.

Lemma tcp_transfer_divides_by_zero_elapsed_witness :
  Client.tcp_transfer (Ok tt) 5 5 0 [] = Client.TcpError ZeroDivisionError
  /\ Client.speed_of 0 5 5 = 0%Q.
Proof.
  apply (tcp_transfer_divides_by_zero_elapsed 5 5 0 0 []); reflexivity.
Defined.

(** C8.  For every requested size [S >= 0]: if the receive loop of
    [tcp_transfer] is left through its condition, the cumulative count is
    at least [S] (and so is the count of a finished transfer); the loop is
    left that way as soon as the stream hands over [S] bytes; for
    [S = 0] it ends at once with 0 bytes, whatever the stream holds; and
    the count is the number of bytes of the reads the loop consumed,
    which are the first reads up to the first one that brings the count
    to [S]. *)
Theorem reliable_receives_at_least_requested
    (S : Z) (reads : list (result bytes)) :
  0 <= S ->
  (forall n, Client.tcp_recv_loop S 0 reads = Client.Completed n -> S <= n)
  /\ (forall connected start_time end_time n elapsed speed,
        Client.tcp_transfer connected start_time end_time S reads
        = Client.TcpFinished n elapsed speed -> S <= n)
  /\ (S <= delivered reads ->
      exists n, Client.tcp_recv_loop S 0 reads = Client.Completed n /\ S <= n)
  /\ (S = 0 -> Client.tcp_recv_loop S 0 reads = Client.Completed 0)
  /\ (forall n,
        Client.tcp_recv_loop S 0 reads = Client.Completed n ->
        exists consumed rest,
          reads = map Ok consumed ++ rest
          /\ n = delivered (map Ok consumed)
          /\ (consumed <> [] ->
              delivered (map Ok (removelast consumed)) < S)).
Proof.
  intro HS. split; [|split; [|split; [|split]]].
  - intros n H. now apply tcp_recv_loop_completed in H.
  - intros connected start_time end_time n elapsed speed H.
    unfold Client.tcp_transfer in H.
    destruct connected; [|discriminate].
    destruct (Client.tcp_recv_loop S 0 reads) as [m|e|m] eqn:L;
      try discriminate.
    destruct (truediv _ _); [|discriminate].
    inversion H; subst. now apply tcp_recv_loop_completed in L.
  - intro Hd. destruct (tcp_recv_loop_total S reads 0) as [n Hn]; [lia|].
    exists n. split; [exact Hn|]. now apply tcp_recv_loop_completed in Hn.
  - intros ->. now apply tcp_recv_loop_exit.
  - intros n H. apply tcp_recv_loop_consumed in H. exact H.
Qed.

Lemma reliable_receives_at_least_requested_witness :
  let reads := [Ok (repeat filler 1024); Ok (repeat filler 1024)] in
  (exists n, Client.tcp_recv_loop 1500 0 reads = Client.Completed n
             /\ 1500 <= n)
  /\ Client.tcp_recv_loop 0 0 reads = Client.Completed 0
  /\ (exists consumed rest,
        reads = map Ok consumed ++ rest
        /\ 2048 = delivered (map Ok consumed)
        /\ (consumed <> [] ->
            delivered (map Ok (removelast consumed)) < 1500)).
Proof.
  intro reads. split; [|split].
  - destruct (reliable_receives_at_least_requested 1500 reads)
      as (_ & _ & H & _); [lia|].
    apply H. vm_compute. discriminate.
  - destruct (reliable_receives_at_least_requested 0 reads)
      as (_ & _ & _ & H & _); [lia|].
    now apply H.
  - destruct (reliable_receives_at_least_requested 1500 reads)
      as (_ & _ & _ & _ & H); [lia|].
    apply (H 2048). reflexivity.
Defined.

(** C9.  For every [S > 0]: each read adds its length to the counter; a
    zero-length read leaves the counter as it was; when the peer closes
    after sending fewer than [S] bytes, the loop is still in its body
    after any number of further reads, with the counter where the stream
    left it; and the loop is left through its condition only if the reads
    handed over at least [S] bytes. *)
Theorem reliable_loop_needs_requested_bytes (S : Z) :
  0 < S ->
  (forall received data rest,
      received < S ->
      Client.tcp_recv_loop S received (Ok data :: rest)
      = Client.tcp_recv_loop S (received + len data) rest)
  /\ (forall received rest,
        received < S ->
        Client.tcp_recv_loop S received (Ok [] :: rest)
        = Client.tcp_recv_loop S received rest)
  /\ (forall chunks later,
        delivered (map Ok chunks) < S ->
        Client.tcp_recv_loop S 0 (closed_after chunks later)
        = Client.Blocked (delivered (map Ok chunks)))
  /\ (forall reads n,
        Client.tcp_recv_loop S 0 reads = Client.Completed n ->
        S <= delivered reads).
Proof.
  intro HS. split; [|split; [|split]].
  - intros received data rest H. now apply tcp_recv_loop_read.
  - intros received rest H. rewrite tcp_recv_loop_read by exact H.
    change (len []) with 0. now rewrite Z.add_0_r.
  - intros chunks later H.
    now rewrite tcp_recv_loop_closed by (rewrite Z.add_0_l; exact H).
  - intros reads n H. apply tcp_recv_loop_completed in H as [_ H].
    rewrite Z.add_0_l in H. now apply H.
Qed.

Lemma reliable_loop_needs_requested_bytes_witness :
  Client.tcp_recv_loop 2048 0 (closed_after [repeat filler 1024] 50)
  = Client.Blocked 1024
  /\ 2048 <= delivered [Ok (repeat filler 1024); Ok (repeat filler 1024)].
Proof.
  destruct (reliable_loop_needs_requested_bytes 2048) as (_ & _ & Hc & Hd);
    [lia|].
  split.
  - apply (Hc [repeat filler 1024] 50%nat). vm_compute. reflexivity.
  - apply (Hd _ 2048). vm_compute. reflexivity.
Defined.

(** ** Server sockets *)

(** C10.  In every run, whatever the accept loop and the request loop
    later receive, the reliable accept socket is bound to
    ("172.20.10.3", TCP_PORT) and the unreliable request socket to
    ("172.20.10.3", UDP_PORT); that host is neither of the wildcard
    spellings, the empty string and "0.0.0.0". *)
Theorem server_sockets_bind_fixed_address
    (accepts : list (result address))
    (arrivals : list (result (bytes * address))) :
  Server.bound_to (Server.start_tcp_server accepts)
  = Some ("172.20.10.3"%string, TCP_PORT)
  /\ Server.bound_to (Server.start_udp_server arrivals)
     = Some ("172.20.10.3"%string, UDP_PORT)
  /\ "172.20.10.3"%string <> EmptyString
  /\ "172.20.10.3"%string <> "0.0.0.0"%string.
Proof.
  repeat split; discriminate.
Qed.

(** * Further properties of the two programs *)

(** ** The request loop of the server *)

Section RequestLoop.

Lemma Z_of_byte_range (b : byte) : 0 <= Z_of_byte b < 256.
Proof.
  unfold Z_of_byte. pose proof (Byte.to_N_bounded b). lia.
Qed.

Lemma be_fold_bound (bs : bytes) :
  forall acc,
    0 <= acc ->
    0 <= fold_left (fun a b => a * 256 + Z_of_byte b) bs acc
      < (acc + 1) * 2 ^ (8 * Z.of_nat (length bs)).
Proof.
  induction bs as [|b bs IH]; intros acc Hacc.
  - cbn [fold_left length]. change (8 * Z.of_nat 0) with 0.
    rewrite Z.pow_0_r. lia.
  - cbn [fold_left length]. pose proof (Z_of_byte_range b) as Hb.
    specialize (IH (acc * 256 + Z_of_byte b) ltac:(lia)).
    replace (8 * Z.of_nat (S (length bs)))
      with (8 * Z.of_nat (length bs) + 8) by lia.
    rewrite Z.pow_add_r by lia. change (2 ^ 8) with 256.
    set (p := 2 ^ (8 * Z.of_nat (length bs))) in *.
    assert (Hp : 0 < p) by (apply Z.pow_pos_nonneg; lia).
    split; [lia|]. nia.
Qed.

(** A field read off the wire fits its width. *)
Lemma be_decode_bound (bs : bytes) :
  0 <= be_decode bs < 2 ^ (8 * Z.of_nat (length bs)).
Proof.
  unfold be_decode. pose proof (be_fold_bound bs 0 ltac:(lia)). lia.
Qed.

Lemma unpack_request_fields (m : bytes) :
  13 <= len m ->
  unpack request_fmt (slice_to 13 m)
  = Some [wire_magic m; wire_type m; wire_u64 5 m].
Proof.
  unfold len. intro H.
  do 13 (destruct m as [|? m]; [cbn [length] in H; lia|]).
  reflexivity.
Qed.

Lemma udp_request_spec (arrived : bytes) (client : address) :
  Server.udp_request arrived client
  = Ok (if is_request (recv_buf BUFFER_SIZE arrived)
        then Some (client, wire_u64 5 (recv_buf BUFFER_SIZE arrived))
        else None).
Proof.
  unfold Server.udp_request, is_request.
  destruct (13 <=? len (recv_buf BUFFER_SIZE arrived)) eqn:E; [|reflexivity].
  apply Z.leb_le in E. rewrite (unpack_request_fields _ E).
  cbn [of_struct bind andb].
  now destruct ((wire_magic (recv_buf BUFFER_SIZE arrived) =? MAGIC_COOKIE)
                && (wire_type (recv_buf BUFFER_SIZE arrived)
                    =? REQUEST_MESSAGE_TYPE)).
Qed.

Lemma wire_u64_bound (i : nat) (m : bytes) : 0 <= wire_u64 i m < 2 ^ 64.
Proof.
  unfold wire_u64. pose proof (be_decode_bound (slice i (i + 8) m)) as B.
  assert (L : (length (slice i (i + 8) m) <= 8)%nat).
  { unfold slice. rewrite length_firstn. lia. }
  assert (2 ^ (8 * Z.of_nat (length (slice i (i + 8) m))) <= 2 ^ 64).
  { apply Z.pow_le_mono_r; lia. }
  lia.
Qed.

Lemma is_request_iff (m : bytes) :
  is_request m = true
  <-> 13 <= len m /\ wire_magic m = MAGIC_COOKIE
      /\ wire_type m = REQUEST_MESSAGE_TYPE.
Proof.
  unfold is_request. rewrite !andb_true_iff, Z.leb_le, !Z.eqb_eq. tauto.
Qed.

Lemma udp_turn_junk (arrived : bytes) (client : address) :
  is_request (recv_buf BUFFER_SIZE arrived) = false ->
  Server.udp_turn (Ok (arrived, client)) = [].
Proof.
  intro H. unfold Server.udp_turn. cbn [bind fst snd].
  now rewrite udp_request_spec, H.
Qed.

End RequestLoop.

(** X1.  The request test of [start_udp_server] never raises.  It starts a
    handler exactly for a datagram that, as received, has at least 13
    bytes, magic 0xABCDDCBA and type 0x3; the handler gets the sender and
    the big-endian u64 of bytes 5..12, which lies in [0, 2^64). *)
Theorem udp_request_accepts_exactly_requests
    (arrived : bytes) (client : address) :
  (forall who size,
      Server.udp_request arrived client = Ok (Some (who, size)) <->
      13 <= len (recv_buf BUFFER_SIZE arrived)
      /\ wire_magic (recv_buf BUFFER_SIZE arrived) = MAGIC_COOKIE
      /\ wire_type (recv_buf BUFFER_SIZE arrived) = REQUEST_MESSAGE_TYPE
      /\ who = client
      /\ size = wire_u64 5 (recv_buf BUFFER_SIZE arrived))
  /\ (forall who size,
        Server.udp_request arrived client = Ok (Some (who, size)) ->
        0 <= size < 2 ^ 64)
  /\ (forall e, Server.udp_request arrived client <> Raise e).
Proof.
  rewrite udp_request_spec.
  destruct (is_request (recv_buf BUFFER_SIZE arrived)) eqn:R.
  - apply is_request_iff in R. split; [|split].
    + intros who size. split.
      * intro H. inversion H; subst. tauto.
      * intros (_ & _ & _ & -> & ->). reflexivity.
    + intros who size H. inversion H; subst. apply wire_u64_bound.
    + intros e H. discriminate H.
  - split; [|split].
    + intros who size. split; [discriminate|].
      intros (H1 & H2 & H3 & _).
      assert (is_request (recv_buf BUFFER_SIZE arrived) = true)
        by (apply is_request_iff; tauto).
      congruence.
    + intros who size H. discriminate H.
    + intros e H. discriminate H.
Qed.

Lemma udp_request_accepts_exactly_requests_witness :
  let request :=
    [xab; xcd; xdc; xba; x03; x00; x00; x00; x00; x00; x00; x28; x00] in
  let client := ("10.0.0.7"%string, 50000) in
  Server.udp_request request client = Ok (Some (client, 10240))
  /\ 0 <= 10240 < 2 ^ 64.
Proof.
  intros request client.
  destruct (udp_request_accepts_exactly_requests request client)
    as (Hiff & Hbound & _).
  assert (H : Server.udp_request request client = Ok (Some (client, 10240))).
  { apply Hiff. repeat split. vm_compute. discriminate. }
  split; [exact H | exact (Hbound _ _ H)].
Defined.

(** X2.  A datagram that is not a request leaves no trace in the request
    loop, wherever it arrives: no handler, nothing logged, and the loop
    treats the other arrivals as if it had not come.  A failing
    [recvfrom] is logged and the loop goes on. *)
Theorem request_loop_skips_junk
    (before after : list (result (bytes * address)))
    (junk : bytes) (sender : address) (e : exn) :
  is_request (recv_buf BUFFER_SIZE junk) = false ->
  Server.start_udp_server (before ++ Ok (junk, sender) :: after)
  = Server.start_udp_server (before ++ after)
  /\ Server.start_udp_server (before ++ Raise e :: after)
     = Server.start_udp_server before
         ++ Server.LogError e :: flat_map Server.udp_turn after.
Proof.
  intro H. unfold Server.start_udp_server.
  rewrite !flat_map_app. cbn [flat_map].
  rewrite (udp_turn_junk _ _ H). split.
  - reflexivity.
  - cbn [Server.udp_turn bind app]. reflexivity.
Qed.

Lemma request_loop_skips_junk_witness :
  let offer := [xab; xcd; xdc; xba; x02; x37; x25; xff; x98] in
  let request :=
    [xab; xcd; xdc; xba; x03; x00; x00; x00; x00; x00; x00; x28; x00] in
  let peer := ("10.0.0.7"%string, 50000) in
  Server.start_udp_server ([Ok (request, peer)] ++ Ok (offer, peer) :: [])
  = Server.start_udp_server ([Ok (request, peer)] ++ []).
Proof.
  intros offer request peer.
  destruct (request_loop_skips_junk [Ok (request, peer)] [] offer peer
              OSError) as [H _]; [reflexivity | exact H].
Defined.

(** ** Message kinds on the wire *)

Section Kinds.

(** The fields of a datagram do not change when bytes are appended, nor
    when it passes through a 1024-byte receive buffer. *)
Lemma slice_recv_app (i j : nat) (m extra : bytes) :
  (i <= j)%nat -> (j <= length m)%nat -> (j <= 1024)%nat ->
  slice i j (recv_buf BUFFER_SIZE (m ++ extra)) = slice i j m.
Proof.
  intros Hij Hjm Hj. unfold slice, recv_buf.
  change (Z.to_nat BUFFER_SIZE) with 1024%nat.
  rewrite skipn_firstn_comm, firstn_firstn.
  replace (Nat.min (j - i) (1024 - i)) with (j - i)%nat by lia.
  rewrite skipn_app, firstn_app, length_skipn.
  replace (j - i - (length m - i))%nat with 0%nat by lia.
  cbn [firstn]. now rewrite app_nil_r.
Qed.

Lemma len_recv_app (m extra : bytes) :
  len m <= 1024 -> len m <= len (recv_buf BUFFER_SIZE (m ++ extra)).
Proof.
  unfold len, recv_buf. change (Z.to_nat BUFFER_SIZE) with 1024%nat.
  rewrite length_firstn, length_app. lia.
Qed.

Lemma pack_request_fields (S : Z) (req : bytes) :
  pack request_fmt [MAGIC_COOKIE; REQUEST_MESSAGE_TYPE; S] = Some req ->
  length req = 13%nat
  /\ wire_magic req = MAGIC_COOKIE
  /\ wire_type req = REQUEST_MESSAGE_TYPE
  /\ wire_u64 5 req = S.
Proof.
  intro H. pose proof (pack_length _ _ _ H) as L.
  change (calcsize request_fmt) with 13%nat in L.
  pose proof (unpack_pack _ _ _ H) as U.
  assert (F : unpack request_fmt (slice_to 13 req)
              = Some [wire_magic req; wire_type req; wire_u64 5 req])
    by (apply unpack_request_fields; unfold len; lia).
  unfold slice_to in F. rewrite firstn_all2 in F by lia.
  rewrite U in F. inversion F. now repeat split.
Qed.

Lemma offer_message_fields (udp_port tcp_port : Z) (msg : bytes) :
  Server.offer_message udp_port tcp_port = Some msg ->
  length msg = 9%nat
  /\ wire_magic msg = MAGIC_COOKIE
  /\ wire_type msg = OFFER_MESSAGE_TYPE
  /\ wire_u16 5 msg = udp_port
  /\ wire_u16 7 msg = tcp_port.
Proof.
  unfold Server.offer_message. intro H.
  pose proof (pack_length _ _ _ H) as L.
  change (calcsize offer_fmt) with 9%nat in L.
  pose proof (unpack_pack _ _ _ H) as U.
  assert (F : unpack offer_fmt (slice_to 9 msg)
              = Some [wire_magic msg; wire_type msg;
                      wire_u16 5 msg; wire_u16 7 msg])
    by (apply unpack_offer_fields; unfold len; lia).
  unfold slice_to in F. rewrite firstn_all2 in F by lia.
  rewrite U in F. inversion F. now repeat split.
Qed.

(** A segment the handler built is the wire format's segment. *)
Lemma segment_inv (total index : Z) (seg : bytes) :
  Server.segment total index = Some seg ->
  0 <= total < 2 ^ 64 /\ 0 <= index < 2 ^ 64
  /\ seg = expected_segment total index.
Proof.
  intro H.
  assert (R : 0 <= total < 2 ^ 64 /\ 0 <= index < 2 ^ 64).
  { unfold Server.segment, payload_fmt in H. cbn [pack] in H.
    change (in_range FI MAGIC_COOKIE) with true in H.
    change (in_range FB PAYLOAD_MESSAGE_TYPE) with true in H.
    cbv iota in H.
    destruct (in_range FQ total) eqn:Rt; [|discriminate].
    destruct (in_range FQ index) eqn:Ri; [|discriminate].
    apply in_range_spec in Rt, Ri. now split. }
  destruct R as [Rt Ri]. rewrite (segment_expected _ _ Rt Ri) in H.
  inversion H. now repeat split.
Qed.

Lemma expected_segment_head (total index : Z) :
  expected_segment total index
  = [xab; xcd; xdc; xba; x04]
      ++ be_encode 8 total ++ be_encode 8 index ++ repeat filler 1003.
Proof. reflexivity. Qed.

Lemma expected_segment_kind (total index : Z) :
  len (recv_buf BUFFER_SIZE (expected_segment total index)) = 1024
  /\ wire_magic (recv_buf BUFFER_SIZE (expected_segment total index))
     = MAGIC_COOKIE
  /\ wire_type (recv_buf BUFFER_SIZE (expected_segment total index))
     = PAYLOAD_MESSAGE_TYPE.
Proof.
  assert (L : len (expected_segment total index) = 1024)
    by (unfold len; now rewrite length_expected_segment).
  rewrite recv_buf_short by (rewrite L; reflexivity).
  split; [exact L|].
  unfold wire_magic, wire_type, slice. rewrite expected_segment_head.
  split; reflexivity.
Qed.

Lemma offer_step_not_offer (m : bytes) (addr : address) :
  is_offer m = false -> Client.offer_step m addr = Ok None.
Proof.
  intro H. rewrite offer_step_spec. unfold is_offer in H. now rewrite H.
Qed.

End Kinds.

(** X3.  The three kinds of datagram are never confused.  The request
    loop of the server drops every offer the server packs and every
    payload segment a handler builds; the discovery listener of the client
    drops every request a client packs and every payload segment. *)
Theorem kinds_are_not_confused
    (udp_port tcp_port S total index : Z) (msg req seg : bytes)
    (sender : address) :
  Server.offer_message udp_port tcp_port = Some msg ->
  pack request_fmt [MAGIC_COOKIE; REQUEST_MESSAGE_TYPE; S] = Some req ->
  Server.segment total index = Some seg ->
  Server.udp_request msg sender = Ok None
  /\ Server.udp_request seg sender = Ok None
  /\ Client.offer_step (recv_buf BUFFER_SIZE req) sender = Ok None
  /\ Client.offer_step (recv_buf BUFFER_SIZE seg) sender = Ok None.
Proof.
  intros Hmsg Hreq Hseg.
  apply offer_message_fields in Hmsg as (Lm & _).
  apply pack_request_fields in Hreq as (Lr & _ & Tr & _).
  apply segment_inv in Hseg as (_ & _ & ->).
  destruct (expected_segment_kind total index) as (Ls & _ & Ts).
  split; [|split; [|split]].
  - rewrite udp_request_spec. unfold is_request.
    rewrite recv_buf_short by (unfold len, BUFFER_SIZE; lia).
    assert (E : (13 <=? len msg) = false)
      by (apply Z.leb_gt; unfold len; lia).
    now rewrite E.
  - rewrite udp_request_spec. unfold is_request. rewrite Ts.
    change (PAYLOAD_MESSAGE_TYPE =? REQUEST_MESSAGE_TYPE) with false.
    now rewrite andb_false_r.
  - apply offer_step_not_offer. unfold is_offer.
    rewrite recv_buf_short by (unfold len, BUFFER_SIZE; lia).
    rewrite Tr.
    change (REQUEST_MESSAGE_TYPE =? OFFER_MESSAGE_TYPE) with false.
    now rewrite andb_false_r.
  - apply offer_step_not_offer. unfold is_offer. rewrite Ts.
    change (PAYLOAD_MESSAGE_TYPE =? OFFER_MESSAGE_TYPE) with false.
    now rewrite andb_false_r.
Qed.

Lemma kinds_are_not_confused_witness :
  let msg := [xab; xcd; xdc; xba; x02; x37; x25; xff; x98] in
  let req :=
    [xab; xcd; xdc; xba; x03; x00; x00; x00; x00; x00; x00; x28; x00] in
  let sender := ("10.0.0.7"%string, 50000) in
  Server.udp_request msg sender = Ok None
  /\ Server.udp_request (expected_segment 10 3) sender = Ok None
  /\ Client.offer_step (recv_buf BUFFER_SIZE req) sender = Ok None
  /\ Client.offer_step (recv_buf BUFFER_SIZE (expected_segment 10 3)) sender
     = Ok None.
Proof.
  intros msg req sender.
  apply (kinds_are_not_confused UDP_PORT TCP_PORT 10240 10 3);
    vm_compute; reflexivity.
Defined.

(** X4.  The request test reads the first 13 bytes only: a request packed
    by a client for size [S] is accepted with that [S] whatever bytes
    follow it in the datagram. *)
Theorem request_with_trailing_bytes
    (S : Z) (req extra : bytes) (client : address) :
  pack request_fmt [MAGIC_COOKIE; REQUEST_MESSAGE_TYPE; S] = Some req ->
  Server.udp_request (req ++ extra) client = Ok (Some (client, S)).
Proof.
  intro H. apply pack_request_fields in H as (L & Hm & Ht & Hs).
  rewrite udp_request_spec. unfold is_request, wire_magic, wire_type, wire_u64.
  rewrite !slice_recv_app by lia.
  fold (wire_magic req) (wire_type req) (wire_u64 5 req).
  rewrite Hm, Ht, Hs, !Z.eqb_refl.
  assert (E : (13 <=? len (recv_buf BUFFER_SIZE (req ++ extra))) = true).
  { apply Z.leb_le. pose proof (len_recv_app req extra). unfold len in *. lia. }
  now rewrite E.
Qed.

Lemma request_with_trailing_bytes_witness :
  Server.udp_request
    ([xab; xcd; xdc; xba; x03; x00; x00; x00; x00; x00; x00; x28; x00]
       ++ repeat xff 2000) ("10.0.0.7"%string, 50000)
  = Ok (Some (("10.0.0.7"%string, 50000), 10240)).
Proof.
  apply (request_with_trailing_bytes 10240). reflexivity.
Defined.

(** ** The unreliable handler: failures and its report *)

Section UdpHandlerRuns.

Lemma floordiv_u64 (S : Z) :
  0 <= S < 2 ^ 64 -> 0 <= floordiv S 1024 < 2 ^ 64.
Proof.
  intro HS. unfold floordiv.
  pose proof (Z.div_pos S 1024 ltac:(lia) ltac:(lia)).
  pose proof (Z.div_le_upper_bound S 1024 S ltac:(lia) ltac:(lia)). lia.
Qed.

Lemma length_range (n : Z) : length (Server.range n) = Z.to_nat n.
Proof. unfold Server.range. now rewrite length_map, length_seq. Qed.

Lemma range_split (k n : Z) :
  0 <= k < n ->
  exists tail, Server.range n = Server.range k ++ k :: tail.
Proof.
  intro H. unfold Server.range.
  replace (Z.to_nat n) with (Z.to_nat k + S (Z.to_nat (n - k - 1)))%nat by lia.
  rewrite seq_app, map_app. cbn [seq map Nat.add].
  rewrite Z2Nat.id by lia. eauto.
Qed.

(** The loop up to the first datagram the transport refuses. *)
Lemma send_loop_refused (sendto_ok : Z -> bool) (client : address)
    (total k : Z) (tail : list Z) :
  0 <= total < 2 ^ 64 -> 0 <= k < 2 ^ 64 ->
  sendto_ok k = false ->
  forall nums st,
    Forall (fun n => 0 <= n < 2 ^ 64 /\ sendto_ok n = true) nums ->
    Server.send_loop sendto_ok client total (nums ++ k :: tail) st
    = ({| Server.sent :=
            Server.sent st
              ++ map (fun i => (expected_segment total i, client)) nums;
          Server.bytes_sent :=
            Server.bytes_sent st + 1024 * Z.of_nat (length nums) |},
       Some OSError).
Proof.
  intros Ht Hk Hno nums. induction nums as [|n nums IH]; intros st Hn.
  - cbn [app Server.send_loop map length].
    rewrite (segment_expected _ _ Ht Hk), Hno, app_nil_r.
    destruct st; cbn [Server.sent Server.bytes_sent]. do 2 f_equal. lia.
  - inversion Hn as [|? ? [Hr Hy] Hrest]; subst.
    cbn [app Server.send_loop].
    rewrite (segment_expected _ _ Ht Hr), Hy, (IH _ Hrest).
    cbn [Server.sent Server.bytes_sent map length].
    rewrite <- app_assoc. cbn [app]. unfold len.
    rewrite length_expected_segment. do 2 f_equal. lia.
Qed.

(** A whole run with a transport that takes every datagram. *)
Lemma handle_udp_client_run (sendto_ok : Z -> bool) (start_time end_time : Q)
    (client : address) (S : Z) :
  0 <= S < 2 ^ 64 ->
  (forall n, sendto_ok n = true) ->
  Server.handle_udp_client sendto_ok start_time end_time client S
  = {| Server.total_segments := floordiv S 1024;
       Server.datagrams :=
         map (fun i => (expected_segment (floordiv S 1024) i, client))
           (Server.range (floordiv S 1024));
       Server.handed_over := 1024 * floordiv S 1024;
       Server.report :=
         q <- truediv (inject_Z (1024 * floordiv S 1024))
                (end_time - start_time);;
         Ok (q * 8)%Q |}.
Proof.
  intros HS Hok. pose proof (floordiv_u64 S HS) as Ht.
  unfold Server.handle_udp_client. change BUFFER_SIZE with 1024.
  rewrite (send_loop_all sendto_ok client _ Hok Ht).
  - cbn [Server.sent Server.bytes_sent app].
    rewrite length_range, Z2Nat.id, Z.add_0_l by lia. reflexivity.
  - eapply Forall_impl; [|apply range_bounded]. cbn beta. intros; lia.
Qed.

End UdpHandlerRuns.

(** X5.  When the transport refuses a datagram, the handler stops there:
    if segment [k] is the first one [sendto] fails on, exactly the
    segments 0 .. k-1 have been sent, in order, [1024 * k] bytes were
    handed over, and the handler prints the error instead of a speed. *)
Theorem udp_handler_stops_at_first_refusal
    (sendto_ok : Z -> bool) (start_time end_time : Q) (client : address)
    (S k : Z) :
  0 <= S < 2 ^ 64 ->
  0 <= k < floordiv S 1024 ->
  (forall n, 0 <= n < k -> sendto_ok n = true) ->
  sendto_ok k = false ->
  let run := Server.handle_udp_client sendto_ok start_time end_time client S in
  Server.datagrams run
  = map (fun i => (expected_segment (floordiv S 1024) i, client))
      (Server.range k)
  /\ length (Server.datagrams run) = Z.to_nat k
  /\ Server.handed_over run = 1024 * k
  /\ Server.report run = Raise OSError.
Proof.
  intros HS Hk Hyes Hno run. pose proof (floordiv_u64 S HS) as Ht.
  destruct (range_split k (floordiv S 1024) Hk) as [tail Hsplit].
  assert (Hrun :
    Server.send_loop sendto_ok client (floordiv S 1024)
      (Server.range (floordiv S 1024))
      {| Server.sent := []; Server.bytes_sent := 0 |}
    = ({| Server.sent :=
            map (fun i => (expected_segment (floordiv S 1024) i, client))
              (Server.range k);
          Server.bytes_sent := 1024 * k |}, Some OSError)).
  { rewrite Hsplit.
    rewrite (send_loop_refused sendto_ok client _ k tail Ht ltac:(lia) Hno).
    - cbn [Server.sent Server.bytes_sent app].
      rewrite length_range, Z2Nat.id, Z.add_0_l by lia. reflexivity.
    - eapply Forall_impl; [|apply range_bounded]. cbn beta.
      intros n Hn. split; [lia | apply Hyes; lia]. }
  unfold run, Server.handle_udp_client. change BUFFER_SIZE with 1024.
  rewrite Hrun.
  cbn [Server.datagrams Server.handed_over Server.report
       Server.sent Server.bytes_sent].
  repeat split. now rewrite length_map, length_range.
Qed.

Lemma udp_handler_stops_at_first_refusal_witness :
  let client := ("10.0.0.7"%string, 50000) in
  let run := Server.handle_udp_client (fun n => n <? 3) 0 1 client 10240 in
  length (Server.datagrams run) = 3%nat
  /\ Server.handed_over run = 3072
  /\ Server.report run = Raise OSError.
Proof.
  intros client run.
  destruct (udp_handler_stops_at_first_refusal (fun n => n <? 3) 0 1 client
              10240 3) as (_ & H2 & H3 & H4).
  - lia.
  - vm_compute. split; [discriminate | reflexivity].
  - intros n Hn. apply Z.ltb_lt. lia.
  - reflexivity.
  - repeat split; assumption.
Defined.

(** X6.  The handler computes its speed after the sending is over and
    divides by [end_time - start_time] without a test.  With a transport
    that takes every datagram, all [S // 1024] segments are sent in any
    case; the handler then prints [1024 * (S // 1024) * 8 / elapsed] when
    the two clock readings differ (a value that is not negative when the
    clock went forward), and the ZeroDivisionError when they are equal. *)
Theorem udp_handler_report
    (sendto_ok : Z -> bool) (start_time end_time : Q) (client : address)
    (S : Z) :
  0 <= S < 2 ^ 64 ->
  (forall n, sendto_ok n = true) ->
  let run := Server.handle_udp_client sendto_ok start_time end_time client S in
  length (Server.datagrams run) = Z.to_nat (floordiv S 1024)
  /\ ((start_time == end_time)%Q ->
      Server.report run = Raise ZeroDivisionError)
  /\ (~ (start_time == end_time)%Q ->
      exists speed,
        Server.report run = Ok speed
        /\ (speed == inject_Z (1024 * floordiv S 1024) * 8
                     / (end_time - start_time))%Q
        /\ ((start_time < end_time)%Q -> (0 <= speed)%Q)).
Proof.
  intros HS Hok run. unfold run.
  rewrite (handle_udp_client_run _ _ _ _ _ HS Hok).
  cbn [Server.datagrams Server.report].
  pose proof (floordiv_u64 S HS) as Ht.
  split; [now rewrite length_map, length_range|]. split.
  - intro E. unfold truediv.
    assert (Z0 : Qeq_bool (end_time - start_time) 0 = true).
    { apply Qeq_bool_iff. rewrite E. apply Qplus_opp_r. }
    now rewrite Z0.
  - intro NE. unfold truediv.
    destruct (Qeq_bool (end_time - start_time) 0) eqn:Z0.
    + exfalso. apply NE. apply Qeq_bool_iff in Z0.
      symmetry. rewrite <- (Qplus_0_l start_time), <- Z0. ring.
    + cbn [bind]. eexists. split; [reflexivity|]. split.
      * field. intro Z1. apply Qeq_bool_neq in Z0. contradiction.
      * intro Hlt.
        assert (He : (0 < end_time - start_time)%Q)
          by (now rewrite <- (Qlt_minus_iff start_time end_time)).
        apply Qmult_le_0_compat; [|discriminate].
        apply Qle_shift_div_l; [exact He|].
        rewrite Qmult_0_l. change 0%Q with (inject_Z 0).
        rewrite <- Zle_Qle. lia.
Qed.

Lemma udp_handler_report_witness :
  let client := ("10.0.0.7"%string, 50000) in
  length (Server.datagrams
            (Server.handle_udp_client (fun _ => true) 5 5 client 10240))
  = 10%nat
  /\ Server.report (Server.handle_udp_client (fun _ => true) 5 5 client 10240)
     = Raise ZeroDivisionError.
Proof.
  intro client.
  destruct (udp_handler_report (fun _ => true) 5 5 client 10240)
    as (H1 & H2 & _).
  - vm_compute. split; [discriminate | reflexivity].
  - reflexivity.
  - split; [exact H1 | apply H2; reflexivity].
Defined.

(** ** The reliable handler *)

Section TcpHandlerRuns.

Lemma chunk_len : len (bytes_mul filler BUFFER_SIZE) = 1024.
Proof. reflexivity. Qed.

Lemma chunks_for_cover (S : Z) :
  0 <= S -> S <= 1024 * chunks_for S < S + 1024.
Proof.
  intro H. unfold chunks_for.
  pose proof (Z.div_mod (S + 1023) 1024 ltac:(lia)).
  pose proof (Z.mod_pos_bound (S + 1023) 1024 ltac:(lia)). lia.
Qed.

Lemma chunks_for_nonpos (S : Z) : S <= 0 -> chunks_for S <= 0.
Proof.
  intro H. unfold chunks_for.
  pose proof (Z.div_mod (S + 1023) 1024 ltac:(lia)).
  pose proof (Z.mod_pos_bound (S + 1023) 1024 ltac:(lia)). lia.
Qed.

Lemma tcp_send_loop_exit (data : bytes) (file_size : Z)
    (st : TcpHandler.send_state) (sends : list (result Z)) :
  file_size <= TcpHandler.bytes_sent st ->
  TcpHandler.send_loop data file_size st sends = (st, TcpHandler.Done).
Proof.
  intro H. apply Z.ltb_ge in H.
  destruct sends as [|[r|e] rest]; cbn [TcpHandler.send_loop]; now rewrite H.
Qed.

(** The loop hands over whole chunks until the count covers the request;
    what [send] returned plays no part. *)
Lemma tcp_send_loop_run (data : bytes) (file_size : Z)
    (rest : list (result Z)) :
  len data = 1024 ->
  forall rets st,
    file_size <= TcpHandler.bytes_sent st + 1024 * Z.of_nat (length rets) ->
    (rets <> [] ->
     TcpHandler.bytes_sent st + 1024 * (Z.of_nat (length rets) - 1)
     < file_size) ->
    TcpHandler.send_loop data file_size st (map Ok rets ++ rest)
    = ({| TcpHandler.calls :=
            TcpHandler.calls st
              ++ repeat (TcpHandler.CSend data) (length rets);
          TcpHandler.bytes_sent :=
            TcpHandler.bytes_sent st + 1024 * Z.of_nat (length rets) |},
       TcpHandler.Done).
Proof.
  intros Hd rets. induction rets as [|r rets IH]; intros st Hup Hlow.
  - cbn [map app length repeat] in *.
    rewrite tcp_send_loop_exit by lia. rewrite app_nil_r.
    destruct st; cbn [TcpHandler.calls TcpHandler.bytes_sent].
    do 2 f_equal. lia.
  - cbn [map app length] in *.
    assert (C : TcpHandler.bytes_sent st < file_size)
      by (specialize (Hlow ltac:(discriminate)); lia).
    cbn [TcpHandler.send_loop]. apply Z.ltb_lt in C. rewrite C.
    apply Z.ltb_lt in C. rewrite IH.
    + cbn [TcpHandler.calls TcpHandler.bytes_sent repeat].
      rewrite <- app_assoc. cbn [app]. rewrite Hd. do 2 f_equal. lia.
    + cbn [TcpHandler.bytes_sent]. lia.
    + intro NE. cbn [TcpHandler.bytes_sent].
      specialize (Hlow ltac:(discriminate)). lia.
Qed.

(** However the loop is left, it has made sends of the one chunk only and
    has counted 1024 for each. *)
Lemma tcp_send_loop_shape (data : bytes) (file_size : Z)
    (sends : list (result Z)) :
  len data = 1024 ->
  forall st st' status,
    TcpHandler.send_loop data file_size st sends = (st', status) ->
    exists k,
      TcpHandler.calls st'
      = TcpHandler.calls st ++ repeat (TcpHandler.CSend data) k
      /\ TcpHandler.bytes_sent st'
         = TcpHandler.bytes_sent st + 1024 * Z.of_nat k.
Proof.
  intro Hd. induction sends as [|[r|e] rest IH]; intros st st' status H;
    cbn [TcpHandler.send_loop] in H;
    destruct (TcpHandler.bytes_sent st <? file_size);
    try (inversion H; subst; exists 0%nat; cbn [repeat];
         rewrite app_nil_r; split; [reflexivity | lia]).
  apply IH in H as (k & Hc & Hb). exists (S k).
  rewrite Hc, Hb. cbn [TcpHandler.calls TcpHandler.bytes_sent repeat].
  rewrite <- app_assoc. split; [reflexivity | lia].
Qed.

Lemma sent_data_sends (data : bytes) (k : nat)
    (tail : list TcpHandler.conn_action) :
  sent_data (repeat (TcpHandler.CSend data) k ++ tail)
  = repeat data k ++ sent_data tail.
Proof.
  induction k as [|k IH]; cbn [repeat app sent_data]; [reflexivity|].
  now rewrite IH.
Qed.

Lemma delivered_chunks (data : bytes) (k : nat) :
  delivered (map Ok (repeat data k)) = len data * Z.of_nat k.
Proof.
  induction k as [|k IH]; cbn [repeat map delivered]; [lia|].
  rewrite IH. lia.
Qed.

End TcpHandlerRuns.

(** X7.  The reliable handler sends whole 1024-byte chunks of filler and
    counts 1024 per [send] call whatever the call returned.  When the
    request parses to [S] and the first [chunks_for S] sends succeed, it
    makes exactly that many sends and no more, prints (a speed for the
    byte count [1024 * chunks_for S], or the ZeroDivisionError of equal
    clock readings), then shuts down and closes.  For [S >= 0] the count
    is the least multiple of 1024 that covers [S]; for [S <= 0] nothing is
    sent. *)
Theorem tcp_handler_sends_whole_chunks
    (S : Z) (rets : list Z) (rest : list (result Z))
    (start_time end_time : Q) (shutdown : result unit) :
  length rets = Z.to_nat (chunks_for S) ->
  let sent := 1024 * Z.of_nat (length rets) in
  (exists print,
      TcpHandler.handle_tcp_client (Ok S) (map Ok rets ++ rest)
        start_time end_time shutdown
      = Some (repeat (TcpHandler.CSend (repeat filler 1024)) (length rets)
                ++ [print; TcpHandler.CShutdown shutdown; TcpHandler.CClose])
      /\ (print = TcpHandler.CPrintError ZeroDivisionError
          \/ exists q, print = TcpHandler.CPrintSpeed sent q))
  /\ (0 <= S -> S <= sent < S + 1024)
  /\ (S <= 0 -> sent = 0).
Proof.
  intros Hlen sent.
  assert (Hcover : 0 <= S -> S <= sent < S + 1024).
  { intro H. pose proof (chunks_for_cover S H). unfold sent.
    rewrite Hlen, Z2Nat.id by lia. lia. }
  assert (Hnone : S <= 0 -> sent = 0).
  { intro H. pose proof (chunks_for_nonpos S H). unfold sent.
    rewrite Hlen. lia. }
  split; [|split; assumption].
  unfold TcpHandler.handle_tcp_client.
  change (bytes_mul filler BUFFER_SIZE) with (repeat filler 1024).
  rewrite (tcp_send_loop_run (repeat filler 1024) S rest).
  - cbn [TcpHandler.calls TcpHandler.bytes_sent app]. rewrite Z.add_0_l.
    fold sent.
    destruct (truediv (inject_Z sent) (end_time - start_time)) as [q|e] eqn:D.
    + eexists. split; [reflexivity|]. right. eauto.
    + eexists. split; [reflexivity|]. left.
      unfold truediv in D.
      destruct (Qeq_bool (end_time - start_time) 0); now inversion D.
  - reflexivity.
  - cbn [TcpHandler.bytes_sent]. fold sent.
    destruct (Z.le_gt_cases 0 S); [apply Hcover; lia|].
    rewrite Hnone; lia.
  - intro NE. cbn [TcpHandler.bytes_sent].
    assert (0 < S).
    { destruct (Z.le_gt_cases S 0) as [H|H]; [|exact H].
      pose proof (chunks_for_nonpos S H).
      destruct rets; [contradiction | cbn [length] in Hlen; lia]. }
    specialize (Hcover ltac:(lia)). unfold sent in Hcover. lia.
Qed.

Lemma tcp_handler_sends_whole_chunks_witness :
  exists print,
    TcpHandler.handle_tcp_client (Ok 1500) (map Ok [1024; 300] ++ [])
      0 1 (Ok tt)
    = Some (repeat (TcpHandler.CSend (repeat filler 1024)) 2
              ++ [print; TcpHandler.CShutdown (Ok tt); TcpHandler.CClose])
    /\ (print = TcpHandler.CPrintError ZeroDivisionError
        \/ exists q, print = TcpHandler.CPrintSpeed 2048 q).
Proof.
  destruct (tcp_handler_sends_whole_chunks 1500 [1024; 300] [] 0 1 (Ok tt))
    as [H _]; [reflexivity | exact H].
Defined.

(** X8.  Every run of the reliable handler that ends (the request did not
    parse, a send failed, the speed division failed, or all went well)
    ends the same way: sends of the filler chunk only, then exactly one
    printed line (speed or error), then the shutdown attempt, then the
    close; a failing shutdown does not prevent the close. *)
Theorem tcp_handler_always_closes
    (request : result Z) (sends : list (result Z))
    (start_time end_time : Q) (shutdown : result unit)
    (trace : list TcpHandler.conn_action) :
  TcpHandler.handle_tcp_client request sends start_time end_time shutdown
  = Some trace ->
  exists k print,
    trace = repeat (TcpHandler.CSend (repeat filler 1024)) k
              ++ [print; TcpHandler.CShutdown shutdown; TcpHandler.CClose]
    /\ ((exists e, print = TcpHandler.CPrintError e)
        \/ (exists q, print = TcpHandler.CPrintSpeed (1024 * Z.of_nat k) q))
    /\ (forall e, request = Raise e ->
          k = 0%nat /\ print = TcpHandler.CPrintError e).
Proof.
  unfold TcpHandler.handle_tcp_client.
  change (bytes_mul filler BUFFER_SIZE) with (repeat filler 1024).
  destruct request as [S|e0].
  - destruct (TcpHandler.send_loop _ _ _ _) as [st status] eqn:L.
    apply (tcp_send_loop_shape (repeat filler 1024) _ _ eq_refl) in L
      as (k & Hc & Hb).
    cbn [TcpHandler.calls TcpHandler.bytes_sent app] in Hc, Hb.
    rewrite Z.add_0_l in Hb.
    destruct status as [|e|]; [| |discriminate].
    + rewrite Hb, Hc.
      destruct (truediv _ _) as [q|e]; intro H; inversion H; subst;
        exists k; eexists; (split; [reflexivity|]); split; eauto;
        intros e' E; discriminate E.
    + rewrite Hc. intro H; inversion H; subst.
      exists k; eexists; (split; [reflexivity|]); split; eauto.
      intros e' E; discriminate E.
  - intro H. inversion H; subst. exists 0%nat, (TcpHandler.CPrintError e0).
    split; [reflexivity|]. split; [eauto|].
    intros e E. now inversion E.
Qed.

Lemma tcp_handler_always_closes_witness :
  exists k print,
    [TcpHandler.CPrintError ValueError; TcpHandler.CShutdown (Raise OSError);
     TcpHandler.CClose]
    = repeat (TcpHandler.CSend (repeat filler 1024)) k
        ++ [print; TcpHandler.CShutdown (Raise OSError); TcpHandler.CClose]
    /\ ((exists e, print = TcpHandler.CPrintError e)
        \/ (exists q, print = TcpHandler.CPrintSpeed (1024 * Z.of_nat k) q))
    /\ (forall e, @Raise Z ValueError = Raise e ->
          k = 0%nat /\ print = TcpHandler.CPrintError e).
Proof.
  apply (tcp_handler_always_closes (Raise ValueError) [] 0 1 (Raise OSError)).
  reflexivity.
Defined.

(** ** The reliable exchange, both ends *)

Section TcpExchange.

Lemma firstn_chunks (data : bytes) (k j : nat) :
  (j <= k)%nat -> firstn j (repeat data k) = repeat data j.
Proof.
  revert k. induction j as [|j IH]; intros k H; [reflexivity|].
  destruct k as [|k]; [lia|]. cbn [repeat firstn].
  now rewrite IH by lia.
Qed.

(** The client reading whole chunks: it stops at the first chunk that
    covers the request. *)
Lemma tcp_recv_loop_chunks (data : bytes) (file_size : Z) :
  len data = 1024 ->
  forall k received,
    file_size <= received + 1024 * Z.of_nat k ->
    (k <> 0%nat -> received + 1024 * (Z.of_nat k - 1) < file_size) ->
    Client.tcp_recv_loop file_size received (map Ok (repeat data k))
    = Client.Completed (received + 1024 * Z.of_nat k).
Proof.
  intros Hd k. induction k as [|k IH]; intros received Hup Hlow.
  - cbn [repeat map]. rewrite tcp_recv_loop_exit by lia. f_equal. lia.
  - cbn [repeat map].
    rewrite tcp_recv_loop_read by (specialize (Hlow ltac:(lia)); lia).
    rewrite IH.
    + f_equal. lia.
    + lia.
    + intro NE. specialize (Hlow ltac:(lia)). lia.
Qed.

Lemma tcp_recv_loop_mono (file_size : Z) (reads : list (result bytes)) :
  forall received n,
    Client.tcp_recv_loop file_size received reads = Client.Completed n ->
    received <= n.
Proof.
  induction reads as [|[data|e] rest IH]; intros received n H;
    cbn [Client.tcp_recv_loop] in H;
    destruct (received <? file_size);
    try discriminate; try (inversion H; lia).
  apply IH in H. pose proof (len_nonneg data). lia.
Qed.

(** With reads of at most 1024 bytes the loop overshoots by less than one
    buffer. *)
Lemma tcp_recv_loop_overshoot (file_size : Z) (reads : list (result bytes)) :
  Forall (fun r => match r with
                   | Ok data => len data <= 1024
                   | Raise _ => True
                   end) reads ->
  forall received n,
    received < file_size ->
    Client.tcp_recv_loop file_size received reads = Client.Completed n ->
    n < file_size + 1024.
Proof.
  induction 1 as [|[data|e] rest Hr Hrest IH]; intros received n C H.
  - cbn [Client.tcp_recv_loop] in H. apply Z.ltb_lt in C.
    rewrite C in H. discriminate.
  - rewrite tcp_recv_loop_read in H by exact C.
    destruct (Z.lt_ge_cases (received + len data) file_size) as [C'|C'].
    + exact (IH _ _ C' H).
    + rewrite tcp_recv_loop_exit in H by lia. inversion H. lia.
  - cbn [Client.tcp_recv_loop] in H. apply Z.ltb_lt in C.
    rewrite C in H. discriminate.
Qed.

(** Too few bytes and no more reads: the loop waits. *)
Lemma tcp_recv_loop_short (file_size received : Z) (chunks : list bytes) :
  received + delivered (map Ok chunks) < file_size ->
  Client.tcp_recv_loop file_size received (map Ok chunks)
  = Client.Blocked (received + delivered (map Ok chunks)).
Proof.
  intro H. pose proof (tcp_recv_loop_closed file_size chunks 0 received H) as B.
  unfold closed_after in B. cbn [repeat] in B. now rewrite app_nil_r in B.
Qed.

(** The finished run of the handler under the sends it needs. *)
Lemma tcp_handler_run (S : Z) (rets : list Z) (rest : list (result Z))
    (start_time end_time : Q) (shutdown : result unit) :
  length rets = Z.to_nat (chunks_for S) ->
  exists print,
    TcpHandler.handle_tcp_client (Ok S) (map Ok rets ++ rest)
      start_time end_time shutdown
    = Some (repeat (TcpHandler.CSend (repeat filler 1024)) (length rets)
              ++ [print; TcpHandler.CShutdown shutdown; TcpHandler.CClose])
    /\ sent_data [print] = [].
Proof.
  intro Hlen.
  unfold TcpHandler.handle_tcp_client.
  change (bytes_mul filler BUFFER_SIZE) with (repeat filler 1024).
  rewrite (tcp_send_loop_run (repeat filler 1024) S rest).
  - cbn [TcpHandler.calls TcpHandler.bytes_sent app].
    destruct (truediv _ _) as [q|e]; eexists; split; reflexivity.
  - reflexivity.
  - cbn [TcpHandler.bytes_sent]. rewrite Hlen.
    destruct (Z.le_gt_cases 0 S) as [H|H].
    + pose proof (chunks_for_cover S H). lia.
    + lia.
  - intro NE. cbn [TcpHandler.bytes_sent].
    assert (0 < S).
    { destruct (Z.le_gt_cases S 0) as [H|H]; [|exact H].
      pose proof (chunks_for_nonpos S H).
      destruct rets; [contradiction | cbn [length] in Hlen; lia]. }
    pose proof (chunks_for_cover S ltac:(lia)). lia.
Qed.

End TcpExchange.

(** X9.  The two ends of the reliable exchange fit when no send is
    partial.  For a request of [S >= 0] bytes, if every [send] of the
    handler returned the full 1024 (so that the chunks passed to [send]
    are the bytes on the stream), a client that reads them chunk by
    chunk leaves its loop after the last chunk with
    [1024 * chunks_for S] bytes, between [S] and [S + 1023]; with any
    smaller number of those chunks it is still waiting.  The handler
    sends no chunk the client does not need. *)
Theorem reliable_exchange_fits
    (S : Z) (rets : list Z) (rest : list (result Z))
    (start_time end_time : Q) (shutdown : result unit)
    (trace : list TcpHandler.conn_action) :
  0 <= S ->
  length rets = Z.to_nat (chunks_for S) ->
  Forall (fun ret => ret = len (bytes_mul filler BUFFER_SIZE)) rets ->
  TcpHandler.handle_tcp_client (Ok S) (map Ok rets ++ rest)
    start_time end_time shutdown = Some trace ->
  length (sent_data trace) = Z.to_nat (chunks_for S)
  /\ Client.tcp_recv_loop S 0 (map Ok (sent_data trace))
     = Client.Completed (1024 * chunks_for S)
  /\ S <= 1024 * chunks_for S < S + 1024
  /\ (forall j, (j < length (sent_data trace))%nat ->
        Client.tcp_recv_loop S 0 (map Ok (firstn j (sent_data trace)))
        = Client.Blocked (1024 * Z.of_nat j)).
Proof.
  intros HS Hlen _ Hrun.
  destruct (tcp_handler_run S rets rest start_time end_time shutdown Hlen)
    as (print & Htrace & Hprint).
  assert (E : trace
              = repeat (TcpHandler.CSend (repeat filler 1024)) (length rets)
                  ++ [print; TcpHandler.CShutdown shutdown; TcpHandler.CClose])
    by congruence.
  subst trace; clear Hrun.
  pose proof (chunks_for_cover S HS) as Hc.
  assert (Hdata : sent_data
            (repeat (TcpHandler.CSend (repeat filler 1024)) (length rets)
               ++ [print; TcpHandler.CShutdown shutdown; TcpHandler.CClose])
          = repeat (repeat filler 1024) (length rets)).
  { rewrite sent_data_sends.
    change (sent_data [print; TcpHandler.CShutdown shutdown;
                       TcpHandler.CClose])
      with (sent_data [print]).
    rewrite Hprint. apply app_nil_r. }
  rewrite Hdata, repeat_length.
  split; [exact Hlen|]. split; [|split; [exact Hc|]].
  - rewrite (tcp_recv_loop_chunks (repeat filler 1024) S eq_refl).
    + rewrite Hlen, Z2Nat.id by lia. reflexivity.
    + rewrite Hlen, Z2Nat.id by lia. lia.
    + intros _. rewrite Hlen, Z2Nat.id by lia. lia.
  - intros j Hj. rewrite firstn_chunks by lia.
    rewrite tcp_recv_loop_short; rewrite delivered_chunks;
      change (len (repeat filler 1024)) with 1024.
    + reflexivity.
    + lia.
Qed.

Lemma reliable_exchange_fits_witness :
  Client.tcp_recv_loop 1500 0
    (map Ok [repeat filler 1024; repeat filler 1024])
  = Client.Completed 2048.
Proof.
  assert (H : TcpHandler.handle_tcp_client (Ok 1500) (map Ok [1024; 1024] ++ [])
                0 1 (Ok tt)
              = Some [TcpHandler.CSend (repeat filler 1024);
                      TcpHandler.CSend (repeat filler 1024);
                      TcpHandler.CPrintSpeed 2048 (2048 / (1 - 0) * 8)%Q;
                      TcpHandler.CShutdown (Ok tt); TcpHandler.CClose])
    by reflexivity.
  assert (F : Forall (fun ret => ret = len (bytes_mul filler BUFFER_SIZE))
                [1024; 1024])
    by (repeat constructor).
  destruct (reliable_exchange_fits 1500 [1024; 1024] [] 0 1 (Ok tt) _
              ltac:(lia) eq_refl F H) as (_ & Hc & _).
  exact Hc.
Defined.

(** X10.  Every [recv(BUFFER_SIZE)] returns at most 1024 bytes, so for
    [S > 0] a client loop that ends has received at least [S] and fewer
    than [S + 1024] bytes. *)
Theorem reliable_client_overshoot
    (S n : Z) (reads : list (result bytes)) :
  0 < S ->
  Forall (fun r => match r with
                   | Ok data => len data <= BUFFER_SIZE
                   | Raise _ => True
                   end) reads ->
  Client.tcp_recv_loop S 0 reads = Client.Completed n ->
  S <= n < S + BUFFER_SIZE.
Proof.
  intros HS Hreads H. split.
  - now apply tcp_recv_loop_completed in H.
  - exact (tcp_recv_loop_overshoot S reads Hreads 0 n HS H).
Qed.

Lemma reliable_client_overshoot_witness :
  1500 <= 1724 < 1500 + BUFFER_SIZE.
Proof.
  apply (reliable_client_overshoot 1500 1724
           [Ok (repeat filler 1024); Ok (repeat filler 700);
            Ok (repeat filler 1024)]).
  - lia.
  - repeat constructor; vm_compute; discriminate.
  - reflexivity.
Defined.

(** ** What the two clients print *)

Section Speeds.

Lemma Qdiv8_sign (n : Z) (e : Q) :
  0 <= n -> ~ (e == 0)%Q ->
  ((0 < e)%Q -> (0 <= inject_Z n / e * 8)%Q)
  /\ ((e < 0)%Q -> 0 < n -> (inject_Z n / e * 8 < 0)%Q).
Proof.
  intros Hn He. destruct e as [a b].
  unfold Qeq, Qlt, Qle, Qdiv, Qmult, Qinv, inject_Z in *.
  cbn [Qnum Qden] in *.
  destruct a as [|p|p]; cbn [Qnum Qden Z.mul Pos.mul] in *; split; intros;
    try lia; try nia.
Qed.

Lemma udp_counters_nonneg (obs : list Client.observation) :
  forall c c',
    Client.udp_recv_loop obs c = Ok c' ->
    0 <= Client.total_received c ->
    Client.total_received c
      <= 1004 * Client.received_segments c ->
    0 <= Client.total_received c'
    /\ Client.total_received c' <= 1004 * Client.received_segments c'.
Proof.
  induction obs as [|o rest IH]; intros c c' H H0 H1.
  - inversion H; subst. now split.
  - destruct o; cbn [Client.udp_recv_loop] in H;
      try (inversion H; subst; now split).
    apply IH in H; [exact H| |];
      unfold Client.count_datagram;
      destruct (20 <=? len (recv_buf BUFFER_SIZE datagram)) eqn:E;
      cbn [Client.total_received Client.received_segments];
      try assumption;
      apply Z.leb_le in E;
      assert (len (recv_buf BUFFER_SIZE datagram) <= 1024)
        by (unfold len, recv_buf; rewrite length_firstn;
            change (Z.to_nat BUFFER_SIZE) with 1024%nat; lia);
      lia.
Qed.

End Speeds.

(** X11.  The reliable client prints [received * 8 / elapsed] whenever its
    loop ended and the two clock readings differ, with no test on the
    sign: the figure is not negative when the clock went forward, and it
    is negative when the clock went backward during a transfer that
    received something. *)
Theorem tcp_transfer_speed
    (start_time end_time : Q) (S n : Z) (reads : list (result bytes)) :
  Client.tcp_recv_loop S 0 reads = Client.Completed n ->
  ~ (start_time == end_time)%Q ->
  exists speed,
    Client.tcp_transfer (Ok tt) start_time end_time S reads
    = Client.TcpFinished n (end_time - start_time) speed
    /\ (speed == inject_Z n * 8 / (end_time - start_time))%Q
    /\ ((start_time < end_time)%Q -> (0 <= speed)%Q)
    /\ ((end_time < start_time)%Q -> 0 < n -> (speed < 0)%Q).
Proof.
  intros Hloop NE.
  assert (Hn : 0 <= n) by (now apply tcp_recv_loop_mono in Hloop).
  assert (Z0 : ~ (end_time - start_time == 0)%Q).
  { intro Z0. apply NE. symmetry.
    rewrite <- (Qplus_0_l start_time), <- Z0. ring. }
  unfold Client.tcp_transfer, truediv. rewrite Hloop.
  destruct (Qeq_bool (end_time - start_time) 0) eqn:B.
  - apply Qeq_bool_iff in B. contradiction.
  - eexists. split; [reflexivity|].
    destruct (Qdiv8_sign n (end_time - start_time) Hn Z0) as [Hpos Hneg].
    split; [field; exact Z0|]. split.
    + intro Hlt. apply Hpos.
      now rewrite <- (Qlt_minus_iff start_time end_time).
    + intros Hlt Hn0. apply Hneg; [|exact Hn0].
      apply (Qplus_lt_l _ _ start_time). ring_simplify. exact Hlt.
Qed.

Lemma tcp_transfer_speed_witness :
  exists speed,
    Client.tcp_transfer (Ok tt) 7 5 1000 [Ok (repeat filler 1024)]
    = Client.TcpFinished 1024 (5 - 7) speed
    /\ (speed < 0)%Q.
Proof.
  destruct (tcp_transfer_speed 7 5 1000 1024 [Ok (repeat filler 1024)])
    as (speed & H & _ & _ & Hneg).
  - reflexivity.
  - vm_compute. discriminate.
  - exists speed. split; [exact H|]. apply Hneg; [reflexivity | lia].
Defined.

(** X12.  The unreliable client never prints a negative speed and never
    divides by zero: every report has [speed >= 0], equal to 0 when the
    end reading is not after the start reading, and equal to
    [bytes * 8 / elapsed] otherwise.  The byte count it is computed from
    lies between 0 and 1004 per counted segment. *)
Theorem udp_transfer_speed
    (opened request_sent : result unit)
    (start_time end_time : Q) (S : Z) (obs : list Client.observation)
    (r : Client.udp_report) :
  Client.udp_transfer opened request_sent start_time end_time S obs = Ok r ->
  (0 <= Client.speed r)%Q
  /\ 0 <= Client.bytes_seen r <= 1004 * Client.segments_seen r
  /\ ((end_time <= start_time)%Q -> Client.speed r = 0%Q)
  /\ ((start_time < end_time)%Q ->
      Client.speed r
      = (inject_Z (Client.bytes_seen r) / (end_time - start_time) * 8)%Q).
Proof.
  intro H. apply udp_transfer_inv in H as (c & L & ->).
  cbn [Client.speed Client.bytes_seen Client.segments_seen].
  apply udp_counters_nonneg in L;
    [|cbn [Client.total_received]; lia
     |cbn [Client.total_received Client.received_segments]; lia].
  destruct L as [L0 L1].
  assert (Hle : (end_time <= start_time)%Q ->
                Client.speed_of (Client.total_received c) start_time end_time
                = 0%Q).
  { intro Hle. unfold Client.speed_of.
    apply Qle_bool_iff in Hle. now rewrite Hle. }
  assert (Hlt : (start_time < end_time)%Q ->
                Client.speed_of (Client.total_received c) start_time end_time
                = (inject_Z (Client.total_received c)
                   / (end_time - start_time) * 8)%Q).
  { intro Hlt. unfold Client.speed_of.
    destruct (Qle_bool end_time start_time) eqn:B; [|reflexivity].
    apply Qle_bool_iff in B. exfalso. exact (Qlt_not_le _ _ Hlt B). }
  split; [|split; [split; assumption|split; assumption]].
  destruct (Qlt_le_dec start_time end_time) as [Hd|Hd].
  - rewrite (Hlt Hd).
    assert (He : (0 < end_time - start_time)%Q)
      by (now rewrite <- (Qlt_minus_iff start_time end_time)).
    apply (Qdiv8_sign _ _ L0); [|exact He].
    intro Z0. rewrite Z0 in He. discriminate.
  - rewrite (Hle Hd). apply Qle_refl.
Qed.

Lemma udp_transfer_speed_witness :
  exists r,
    Client.udp_transfer (Ok tt) (Ok tt) 7 5 2048
      [Client.Arrival (expected_segment 2 0); Client.RecvTimeout] = Ok r
    /\ (0 <= Client.speed r)%Q
    /\ Client.speed r = 0%Q.
Proof.
  destruct (Client.udp_transfer (Ok tt) (Ok tt) 7 5 2048
              [Client.Arrival (expected_segment 2 0); Client.RecvTimeout])
    as [r|e] eqn:E; [|discriminate E].
  exists r.
  destruct (udp_transfer_speed (Ok tt) (Ok tt) 7 5 2048
              [Client.Arrival (expected_segment 2 0); Client.RecvTimeout] r E)
    as (H0 & _ & Hz & _).
  split; [reflexivity|]. split; [exact H0|].
  apply Hz. vm_compute. discriminate.
Defined.

(** ** Discovery, continued *)

Section Listener.

Lemma is_offer_step (m : bytes) (addr : address) :
  is_offer m = true ->
  Client.offer_step m addr
  = Ok (Some (fst addr, wire_u16 7 m, wire_u16 5 m)).
Proof.
  intro H. rewrite offer_step_spec. unfold is_offer in H. now rewrite H.
Qed.

Lemma listen_passes_over (before rest : list (result (bytes * address))) :
  Forall passed_over before ->
  Client.listen_for_offers (before ++ rest)
  = {| Client.offer := Client.offer (Client.listen_for_offers rest);
       Client.logged :=
         raised before ++ Client.logged (Client.listen_for_offers rest) |}.
Proof.
  induction 1 as [|ev before Hev Hbefore IH]; cbn [app raised].
  - now destruct (Client.listen_for_offers rest).
  - cbn [Client.listen_for_offers].
    destruct ev as [[arrived addr]|e]; cbn [bind fst snd passed_over] in *.
    + now rewrite (offer_step_not_offer _ _ Hev), IH.
    + now rewrite IH.
Qed.

End Listener.

(** X13.  The discovery listener returns at the first arrival that is an
    offer: with only non-offers and failed receives before it, the
    listener returns that offer's sender IP and ports whatever arrives
    afterwards, having printed exactly the receive errors that came
    before; and as long as no offer has arrived it is still listening. *)
Theorem listener_returns_first_offer
    (before after : list (result (bytes * address)))
    (arrived : bytes) (addr : address) :
  Forall passed_over before ->
  is_offer (recv_buf BUFFER_SIZE arrived) = true ->
  Client.listen_for_offers (before ++ Ok (arrived, addr) :: after)
  = {| Client.offer :=
         Some (fst addr,
               wire_u16 7 (recv_buf BUFFER_SIZE arrived),
               wire_u16 5 (recv_buf BUFFER_SIZE arrived));
       Client.logged := raised before |}
  /\ Client.listen_for_offers before
     = {| Client.offer := None; Client.logged := raised before |}.
Proof.
  intros Hbefore Hoffer. split.
  - rewrite (listen_passes_over _ _ Hbefore).
    cbn [Client.listen_for_offers bind fst snd].
    rewrite (is_offer_step _ _ Hoffer).
    cbn [Client.offer Client.logged]. now rewrite app_nil_r.
  - pose proof (listen_passes_over before [] Hbefore) as H.
    rewrite app_nil_r in H. rewrite H.
    cbn [Client.listen_for_offers Client.offer Client.logged].
    now rewrite app_nil_r.
Qed.

Lemma listener_returns_first_offer_witness :
  let genuine := [xab; xcd; xdc; xba; x02; x37; x25; xff; x98] in
  let request :=
    [xab; xcd; xdc; xba; x03; x00; x00; x00; x00; x00; x00; x28; x00] in
  let peer := ("10.0.0.7"%string, 14117) in
  Client.listen_for_offers
    ([Ok (request, peer); Raise OSError]
       ++ Ok (genuine, peer) :: [Raise SocketTimeout])
  = {| Client.offer := Some ("10.0.0.7"%string, 65432, 14117);
       Client.logged := [OSError] |}.
Proof.
  intros genuine request peer.
  destruct (listener_returns_first_offer
              [Ok (request, peer); Raise OSError] [Raise SocketTimeout]
              genuine peer) as [H _].
  - repeat constructor.
  - reflexivity.
  - exact H.
Defined.

(** X14.  The discovery listener reads the first 9 bytes only: an offer
    packed by a server is accepted with the very ports it carries
    whatever bytes follow it in the datagram. *)
Theorem offer_with_trailing_bytes
    (udp_port tcp_port : Z) (msg extra : bytes) (addr : address) :
  Server.offer_message udp_port tcp_port = Some msg ->
  Client.offer_step (recv_buf BUFFER_SIZE (msg ++ extra)) addr
  = Ok (Some (fst addr, tcp_port, udp_port)).
Proof.
  intro H. apply offer_message_fields in H as (L & Hm & Ht & Hu & Hp).
  rewrite is_offer_step.
  - unfold wire_u16. rewrite !slice_recv_app by lia.
    fold (wire_u16 7 msg) (wire_u16 5 msg). now rewrite Hu, Hp.
  - unfold is_offer, wire_magic, wire_type.
    rewrite !slice_recv_app by lia.
    fold (wire_magic msg) (wire_type msg). rewrite Hm, Ht, !Z.eqb_refl.
    assert (E : (9 <=? len (recv_buf BUFFER_SIZE (msg ++ extra))) = true).
    { apply Z.leb_le. pose proof (len_recv_app msg extra).
      unfold len in *. lia. }
    now rewrite E.
Qed.

Lemma offer_with_trailing_bytes_witness :
  Client.offer_step
    (recv_buf BUFFER_SIZE
       ([xab; xcd; xdc; xba; x02; x37; x25; xff; x98] ++ repeat xff 2000))
    ("10.0.0.7"%string, 14117)
  = Ok (Some ("10.0.0.7"%string, TCP_PORT, UDP_PORT)).
Proof.
  apply (offer_with_trailing_bytes UDP_PORT TCP_PORT). reflexivity.
Defined.

(** ** The receive loop of the unreliable client *)

Section UdpLoop.

Lemma udp_recv_loop_arrivals (ds : list bytes) (tail : list Client.observation) :
  forall c,
    Client.udp_recv_loop (map Client.Arrival ds ++ tail) c
    = Client.udp_recv_loop tail
        (fold_left
           (fun c d => Client.count_datagram (recv_buf BUFFER_SIZE d) c) ds c).
Proof.
  induction ds as [|d ds IH]; intro c; cbn [map app fold_left];
    [reflexivity|].
  cbn [Client.udp_recv_loop]. apply IH.
Qed.

Lemma count_datagram_comm (d1 d2 : bytes) (c : Client.counters) :
  Client.count_datagram d1 (Client.count_datagram d2 c)
  = Client.count_datagram d2 (Client.count_datagram d1 c).
Proof.
  unfold Client.count_datagram.
  destruct (20 <=? len d1), (20 <=? len d2);
    cbn [Client.received_segments Client.total_received];
    try reflexivity.
  f_equal; lia.
Qed.

Lemma count_fold_permutation (ds ds' : list bytes) :
  Permutation ds ds' ->
  forall c,
    fold_left (fun c d => Client.count_datagram (recv_buf BUFFER_SIZE d) c) ds c
    = fold_left
        (fun c d => Client.count_datagram (recv_buf BUFFER_SIZE d) c) ds' c.
Proof.
  induction 1 as [|d ds ds' _ IH|d1 d2 ds|ds1 ds2 ds3 _ IH1 _ IH2];
    intro c; cbn [fold_left].
  - reflexivity.
  - apply IH.
  - now rewrite count_datagram_comm.
  - now rewrite IH1, IH2.
Qed.

Lemma count_fold_full (ds : list bytes) :
  Forall (fun d => len d = 1024) ds ->
  forall c,
    fold_left (fun c d => Client.count_datagram (recv_buf BUFFER_SIZE d) c) ds c
    = {| Client.received_segments :=
           Client.received_segments c + Z.of_nat (length ds);
         Client.total_received :=
           Client.total_received c + 1004 * Z.of_nat (length ds) |}.
Proof.
  induction 1 as [|d ds Hd _ IH]; intro c; cbn [fold_left length].
  - destruct c; cbn [Client.received_segments Client.total_received].
    f_equal; lia.
  - rewrite IH, recv_buf_short by (rewrite Hd; reflexivity).
    rewrite count_datagram_counts by lia.
    cbn [Client.received_segments Client.total_received]. f_equal; lia.
Qed.

Lemma request_packs (S : Z) :
  0 <= S < 2 ^ 64 ->
  exists req,
    pack request_fmt [MAGIC_COOKIE; REQUEST_MESSAGE_TYPE; S] = Some req.
Proof.
  intro H. apply pack_ok.
  repeat constructor; try reflexivity. now apply in_range_spec.
Qed.

Lemma request_refused (S : Z) :
  S < 0 \/ 2 ^ 64 <= S ->
  pack request_fmt [MAGIC_COOKIE; REQUEST_MESSAGE_TYPE; S] = None.
Proof.
  intro H. unfold request_fmt. cbn [pack].
  change (in_range FI MAGIC_COOKIE) with true.
  change (in_range FB REQUEST_MESSAGE_TYPE) with true. cbv iota.
  destruct (in_range FQ S) eqn:R; [|reflexivity].
  apply in_range_spec in R. cbn in R. lia.
Qed.

End UdpLoop.

(** X15.  A datagram of fewer than 20 bytes leaves no trace in the
    receive loop of [udp_transfer], wherever it arrives: the loop ends
    with the same counters, or the same exception, as without it. *)
Theorem udp_loop_skips_short_datagrams
    (before after : list Client.observation) (short : bytes)
    (c : Client.counters) :
  len (recv_buf BUFFER_SIZE short) < 20 ->
  Client.udp_recv_loop (before ++ Client.Arrival short :: after) c
  = Client.udp_recv_loop (before ++ after) c.
Proof.
  intro H. revert c.
  induction before as [|o before IH]; intro c; cbn [app].
  - cbn [Client.udp_recv_loop]. unfold Client.count_datagram.
    apply Z.leb_gt in H. now rewrite H.
  - destruct o; cbn [Client.udp_recv_loop]; try reflexivity. apply IH.
Qed.

Lemma udp_loop_skips_short_datagrams_witness :
  Client.udp_recv_loop
    ([Client.Arrival (expected_segment 2 0)]
       ++ Client.Arrival (repeat x00 19)
       :: [Client.Arrival (expected_segment 2 1)]) no_counters
  = Client.udp_recv_loop
      ([Client.Arrival (expected_segment 2 0)]
         ++ [Client.Arrival (expected_segment 2 1)]) no_counters.
Proof.
  apply (udp_loop_skips_short_datagrams
           [Client.Arrival (expected_segment 2 0)]
           [Client.Arrival (expected_segment 2 1)] (repeat x00 19)).
  vm_compute. reflexivity.
Defined.

(** X16.  The receive loop stops at the first receive timeout and at the
    first failed window test: whatever arrives afterwards is not counted. *)
Theorem udp_loop_stops_at_timeout
    (before after : list Client.observation) (c : Client.counters) :
  Client.udp_recv_loop (before ++ Client.RecvTimeout :: after) c
  = Client.udp_recv_loop before c
  /\ Client.udp_recv_loop (before ++ Client.WindowClosed :: after) c
     = Client.udp_recv_loop before c.
Proof.
  revert c. induction before as [|o before IH]; intro c; cbn [app].
  - split; reflexivity.
  - destruct o; cbn [Client.udp_recv_loop]; try (split; reflexivity).
    apply IH.
Qed.

(** X17.  The report of [udp_transfer] does not depend on the order in
    which datagrams arrive: two arrival sequences that are permutations of
    each other, followed by the same end of the window, give the same
    outcome. *)
Theorem udp_transfer_order_independent
    (opened request_sent : result unit)
    (start_time end_time : Q) (S : Z) (ds ds' : list bytes)
    (tail : list Client.observation) :
  Permutation ds ds' ->
  Client.udp_transfer opened request_sent start_time end_time S
    (map Client.Arrival ds ++ tail)
  = Client.udp_transfer opened request_sent start_time end_time S
      (map Client.Arrival ds' ++ tail).
Proof.
  intro P. unfold Client.udp_transfer.
  now rewrite !udp_recv_loop_arrivals, (count_fold_permutation _ _ P).
Qed.

Lemma udp_transfer_order_independent_witness :
  Client.udp_transfer (Ok tt) (Ok tt) 0 1 3072
    (map Client.Arrival
       [expected_segment 3 0; expected_segment 3 1; expected_segment 3 2]
       ++ [Client.RecvTimeout])
  = Client.udp_transfer (Ok tt) (Ok tt) 0 1 3072
      (map Client.Arrival
         [expected_segment 3 1; expected_segment 3 0; expected_segment 3 2]
         ++ [Client.RecvTimeout]).
Proof.
  apply udp_transfer_order_independent. apply perm_swap.
Defined.

(** X18.  What [udp_transfer] needs before it prints its figures.  With
    the socket open, a size outside [0, 2^64) is a struct error raised
    while the request is packed, before [sendto] is called and whatever
    then arrives; a failed socket creation or a failed [sendto] of the
    request ends the transfer with that error and no figures; and when
    the socket opens, the size is in range, the request is sent and no
    receive fails with something other than a timeout, the transfer
    reports.  A report implies all of these. *)
Theorem udp_transfer_reports_in_range
    (opened request_sent : result unit)
    (start_time end_time : Q) (S : Z) (obs : list Client.observation) :
  (S < 0 \/ 2 ^ 64 <= S ->
   Client.udp_transfer (Ok tt) request_sent start_time end_time S obs
   = Raise StructError)
  /\ (forall e,
        Client.udp_transfer (Raise e) request_sent start_time end_time S obs
        = Raise e)
  /\ (forall e,
        0 <= S < 2 ^ 64 ->
        Client.udp_transfer (Ok tt) (Raise e) start_time end_time S obs
        = Raise e)
  /\ (0 <= S < 2 ^ 64 ->
      Forall (fun o => forall e, o <> Client.RecvError e) obs ->
      exists r,
        Client.udp_transfer (Ok tt) (Ok tt) start_time end_time S obs = Ok r)
  /\ (forall r,
        Client.udp_transfer opened request_sent start_time end_time S obs
        = Ok r ->
        opened = Ok tt /\ request_sent = Ok tt /\ 0 <= S < 2 ^ 64).
Proof.
  unfold Client.udp_transfer. split; [|split; [|split; [|split]]].
  - intro H. cbn [bind]. now rewrite (request_refused S H).
  - intro e. reflexivity.
  - intros e H. destruct (request_packs S H) as [req ->]. reflexivity.
  - intros H Hobs. destruct (request_packs S H) as [req ->].
    cbn [of_struct bind].
    assert (G : forall c, exists c', Client.udp_recv_loop obs c = Ok c').
    { induction Hobs as [|o obs Ho _ IH]; intro c.
      - now exists c.
      - destruct o; cbn [Client.udp_recv_loop]; eauto.
        exfalso. now apply (Ho e). }
    destruct (G {| Client.received_segments := 0;
                   Client.total_received := 0 |}) as [c' ->].
    cbn [bind]. eauto.
  - intros r H.
    destruct opened as [[]|e0]; cbn [bind] in H; [|discriminate].
    destruct (pack request_fmt [MAGIC_COOKIE; REQUEST_MESSAGE_TYPE; S])
      eqn:P; cbn [of_struct bind] in H; [|discriminate].
    destruct request_sent as [[]|e1]; cbn [bind] in H; [|discriminate].
    split; [reflexivity|]. split; [reflexivity|].
    destruct (Z.lt_ge_cases S 0) as [Hneg|Hpos];
      [rewrite request_refused in P by (now left); discriminate|].
    destruct (Z.lt_ge_cases S (2 ^ 64)) as [Hlt|Hge]; [lia|].
    rewrite request_refused in P by (now right). discriminate.
Qed.

Lemma udp_transfer_reports_in_range_witness :
  Client.udp_transfer (Ok tt) (Ok tt) 0 1 (-1)
    [Client.Arrival (expected_segment 1 0)]
  = Raise StructError
  /\ Client.udp_transfer (Ok tt) (Raise OSError) 0 1 1024
       [Client.Arrival (expected_segment 1 0); Client.RecvTimeout]
     = Raise OSError
  /\ exists r, Client.udp_transfer (Ok tt) (Ok tt) 0 1 1024
                 [Client.Arrival (expected_segment 1 0); Client.RecvTimeout]
               = Ok r.
Proof.
  split; [|split].
  - destruct (udp_transfer_reports_in_range (Ok tt) (Ok tt) 0 1 (-1)
                [Client.Arrival (expected_segment 1 0)]) as [H _].
    apply H. left. lia.
  - destruct (udp_transfer_reports_in_range (Ok tt) (Raise OSError) 0 1 1024
                [Client.Arrival (expected_segment 1 0); Client.RecvTimeout])
      as (_ & _ & H & _).
    apply H. lia.
  - destruct (udp_transfer_reports_in_range (Ok tt) (Ok tt) 0 1 1024
                [Client.Arrival (expected_segment 1 0); Client.RecvTimeout])
      as (_ & _ & _ & H & _).
    apply H; [lia|]. repeat constructor; intros e; discriminate.
Defined.

(** ** The unreliable exchange, both ends *)

Section UdpExchange.

Lemma unpack_expected_segment (total index : Z) :
  0 <= total < 2 ^ 64 -> 0 <= index < 2 ^ 64 ->
  unpack payload_fmt (slice_to 21 (expected_segment total index))
  = Some [MAGIC_COOKIE; PAYLOAD_MESSAGE_TYPE; total; index].
Proof.
  intros Ht Hi.
  pose proof (pack_payload _ _ Ht Hi) as P.
  pose proof (pack_length _ _ _ P) as L.
  change (calcsize payload_fmt) with 21%nat in L.
  unfold slice_to. rewrite expected_segment_split.
  rewrite firstn_app, L, Nat.sub_diag, firstn_all2 by lia.
  cbn [firstn]. rewrite app_nil_r.
  now apply unpack_pack.
Qed.

Lemma range_NoDup (n : Z) : NoDup (Server.range n).
Proof.
  unfold Server.range. apply NoDup_map_NoDup_ForallPairs.
  - intros a b _ _ H. now apply Nat2Z.inj.
  - apply seq_NoDup.
Qed.

Lemma sent_bodies (sendto_ok : Z -> bool) (start_time end_time : Q)
    (client : address) (S : Z) :
  0 <= S < 2 ^ 64 ->
  (forall n, sendto_ok n = true) ->
  map fst (Server.datagrams
             (Server.handle_udp_client sendto_ok start_time end_time client S))
  = map (expected_segment (floordiv S 1024)) (Server.range (floordiv S 1024)).
Proof.
  intros HS Hok. rewrite (handle_udp_client_run _ _ _ _ _ HS Hok).
  cbn [Server.datagrams]. rewrite map_map. reflexivity.
Qed.

Lemma sent_bodies_full (total : Z) (ds : list bytes) :
  incl ds (map (expected_segment total) (Server.range total)) ->
  Forall (fun d => len d = 1024) ds.
Proof.
  intro H. apply Forall_forall. intros d Hd.
  apply H, in_map_iff in Hd as (i & <- & _).
  unfold len. now rewrite length_expected_segment.
Qed.

Lemma success_rate_of_full (total : Z) :
  0 < total -> (Client.success_rate_of total total == 100)%Q.
Proof.
  intro H. unfold Client.success_rate_of.
  destruct total as [|p|p]; try lia. cbn [Z.gtb Z.compare].
  unfold Qeq, Qdiv, Qmult, Qinv, inject_Z. cbn. lia.
Qed.

(** The report after full segments only, then a timeout. *)
Lemma udp_transfer_full_segments (start_time end_time : Q) (S : Z)
    (ds : list bytes) (rest : list Client.observation) :
  0 <= S < 2 ^ 64 ->
  Forall (fun d => len d = 1024) ds ->
  Client.udp_transfer (Ok tt) (Ok tt) start_time end_time S
    (map Client.Arrival ds ++ Client.RecvTimeout :: rest)
  = Ok {| Client.total_segments := floordiv S 1024;
          Client.segments_seen := Z.of_nat (length ds);
          Client.bytes_seen := 1004 * Z.of_nat (length ds);
          Client.success_rate :=
            Client.success_rate_of (Z.of_nat (length ds)) (floordiv S 1024);
          Client.speed :=
            Client.speed_of (1004 * Z.of_nat (length ds))
              start_time end_time |}.
Proof.
  intros HS Hds. unfold Client.udp_transfer.
  destruct (request_packs S HS) as [req ->]. cbn [of_struct bind].
  rewrite udp_recv_loop_arrivals, (count_fold_full _ Hds).
  cbn [Client.udp_recv_loop bind Client.received_segments
       Client.total_received].
  rewrite !Z.add_0_l. reflexivity.
Qed.

End UdpExchange.

(** X19.  Without loss the two ends of the unreliable exchange agree.
    When every datagram the handler sent for a request of [S] bytes
    arrives once, in order, before the first timeout, the client counts
    [S // 1024] segments, the number it expects, and 1004 bytes for each;
    its success rate is 100 when [S >= 1024] and 0 when [S < 1024]
    (nothing is sent and nothing is expected). *)
Theorem unreliable_exchange_lossless
    (sendto_ok : Z -> bool) (sent_at done_at start_time end_time : Q)
    (client : address) (S : Z) (rest : list Client.observation) :
  0 <= S < 2 ^ 64 ->
  (forall n, sendto_ok n = true) ->
  let run := Server.handle_udp_client sendto_ok sent_at done_at client S in
  exists r,
    Client.udp_transfer (Ok tt) (Ok tt) start_time end_time S
      (map Client.Arrival (map fst (Server.datagrams run))
         ++ Client.RecvTimeout :: rest) = Ok r
    /\ Client.total_segments r = Server.total_segments run
    /\ Client.segments_seen r = Client.total_segments r
    /\ Client.bytes_seen r = 1004 * floordiv S 1024
    /\ (1024 <= S -> (Client.success_rate r == 100)%Q)
    /\ (S < 1024 -> Client.success_rate r = 0%Q).
Proof.
  intros HS Hok run.
  pose proof (floordiv_u64 S HS) as Ht.
  assert (Hb : map fst (Server.datagrams run)
               = map (expected_segment (floordiv S 1024))
                   (Server.range (floordiv S 1024)))
    by (apply sent_bodies; assumption).
  assert (Hfull : Forall (fun d => len d = 1024)
                    (map fst (Server.datagrams run)))
    by (apply (sent_bodies_full (floordiv S 1024)); rewrite Hb;
        apply incl_refl).
  assert (Hlen : Z.of_nat (length (map fst (Server.datagrams run)))
                 = floordiv S 1024)
    by (rewrite Hb, length_map, length_range; lia).
  eexists. split; [apply udp_transfer_full_segments; assumption|].
  cbn [Client.total_segments Client.segments_seen Client.bytes_seen
       Client.success_rate].
  rewrite Hlen.
  split; [|split; [reflexivity|split; [reflexivity|split]]].
  - unfold run. now rewrite (handle_udp_client_run _ _ _ _ _ HS Hok).
  - intro H. apply success_rate_of_full. unfold floordiv.
    pose proof (Z.div_le_lower_bound S 1024 1 ltac:(lia) ltac:(lia)). lia.
  - intro H. unfold Client.success_rate_of, floordiv.
    rewrite Z.div_small by lia. reflexivity.
Qed.

Lemma unreliable_exchange_lossless_witness :
  let client := ("10.0.0.7"%string, 50000) in
  let run := Server.handle_udp_client (fun _ => true) 0 1 client 10240 in
  exists r,
    Client.udp_transfer (Ok tt) (Ok tt) 0 1 10240
      (map Client.Arrival (map fst (Server.datagrams run))
         ++ Client.RecvTimeout :: []) = Ok r
    /\ Client.segments_seen r = Client.total_segments r
    /\ (Client.success_rate r == 100)%Q.
Proof.
  intros client run.
  destruct (unreliable_exchange_lossless (fun _ => true) 0 1 0 1 client
              10240 []) as (r & H & _ & Hs & _ & H100 & _).
  - vm_compute. split; [discriminate | reflexivity].
  - reflexivity.
  - exists r. split; [exact H|]. split; [exact Hs|]. apply H100. lia.
Defined.

(** X20.  Loss and reordering alone never push the success rate above
    100.  When the arrivals before the first timeout are datagrams the
    handler sent for this request, each at most once, in any order, the
    client counts exactly those arrivals, 1004 bytes for each, no more
    than the [S // 1024] it expects, and its success rate is at most
    100. *)
Theorem unreliable_exchange_without_duplicates
    (sendto_ok : Z -> bool) (sent_at done_at start_time end_time : Q)
    (client : address) (S : Z) (ds : list bytes)
    (rest : list Client.observation) :
  0 <= S < 2 ^ 64 ->
  (forall n, sendto_ok n = true) ->
  NoDup ds ->
  incl ds (map fst (Server.datagrams
                      (Server.handle_udp_client sendto_ok sent_at done_at
                         client S))) ->
  exists r,
    Client.udp_transfer (Ok tt) (Ok tt) start_time end_time S
      (map Client.Arrival ds ++ Client.RecvTimeout :: rest) = Ok r
    /\ Client.segments_seen r = Z.of_nat (length ds)
    /\ Client.bytes_seen r = 1004 * Z.of_nat (length ds)
    /\ Client.segments_seen r <= Client.total_segments r
    /\ (0 <= Client.success_rate r <= 100)%Q.
Proof.
  intros HS Hok Hnd Hincl.
  pose proof (floordiv_u64 S HS) as Ht.
  rewrite (sent_bodies _ _ _ _ _ HS Hok) in Hincl.
  pose proof (sent_bodies_full _ _ Hincl) as Hfull.
  assert (Hle : Z.of_nat (length ds) <= floordiv S 1024).
  { pose proof (NoDup_incl_length Hnd Hincl) as L.
    rewrite length_map, length_range in L. lia. }
  eexists. split; [apply udp_transfer_full_segments; assumption|].
  cbn [Client.total_segments Client.segments_seen Client.bytes_seen
       Client.success_rate].
  split; [reflexivity|]. split; [reflexivity|]. split; [exact Hle|].
  split.
  - apply success_rate_of_nonneg. lia.
  - now apply success_rate_of_le_100.
Qed.

Lemma unreliable_exchange_without_duplicates_witness :
  exists r,
    Client.udp_transfer (Ok tt) (Ok tt) 0 1 3072
      (map Client.Arrival [expected_segment 3 2; expected_segment 3 0]
         ++ Client.RecvTimeout :: []) = Ok r
    /\ Client.segments_seen r = 2
    /\ (Client.success_rate r <= 100)%Q.
Proof.
  destruct (unreliable_exchange_without_duplicates (fun _ => true) 0 1 0 1
              ("10.0.0.7"%string, 50000) 3072
              [expected_segment 3 2; expected_segment 3 0] [])
    as (r & H & Hs & _ & _ & _ & H100).
  - vm_compute. split; [discriminate | reflexivity].
  - reflexivity.
  - constructor.
    + intros [E|[]]. vm_compute in E. discriminate E.
    + constructor; [intros [] | constructor].
  - intros d [<-|[<-|[]]]; vm_compute; tauto.
  - exists r. split; [exact H|]. split; [exact Hs | exact H100].
Defined.

(** X21.  The segments of one transfer are pairwise distinct: with a
    transport that takes every datagram, no two datagrams the handler
    sends for a request are equal, because each carries its own index in
    bytes 13..20. *)
Theorem handler_segments_are_distinct
    (sendto_ok : Z -> bool) (start_time end_time : Q)
    (client : address) (S : Z) :
  0 <= S < 2 ^ 64 ->
  (forall n, sendto_ok n = true) ->
  NoDup (map fst (Server.datagrams
                    (Server.handle_udp_client sendto_ok start_time end_time
                       client S))).
Proof.
  intros HS Hok. rewrite (sent_bodies _ _ _ _ _ HS Hok).
  pose proof (floordiv_u64 S HS) as Ht.
  apply NoDup_map_NoDup_ForallPairs; [|apply range_NoDup].
  intros i j Hi Hj E.
  pose proof (range_bounded (floordiv S 1024)) as B.
  rewrite Forall_forall in B.
  pose proof (B i Hi) as Bi. pose proof (B j Hj) as Bj.
  pose proof (unpack_expected_segment (floordiv S 1024) i Ht ltac:(lia)) as Ui.
  pose proof (unpack_expected_segment (floordiv S 1024) j Ht ltac:(lia)) as Uj.
  rewrite E in Ui. rewrite Ui in Uj. now inversion Uj.
Qed.

Lemma handler_segments_are_distinct_witness :
  NoDup (map fst (Server.datagrams
                    (Server.handle_udp_client (fun _ => true) 0 1
                       ("10.0.0.7"%string, 50000) 3072))).
Proof.
  apply handler_segments_are_distinct.
  - vm_compute. split; [discriminate | reflexivity].
  - reflexivity.
Defined.

(** ** From the offer to the workers *)

Section Launch.

Lemma length_range_from (a b : Z) :
  length (Orchestrator.range_from a b) = Z.to_nat (b - a).
Proof. unfold Orchestrator.range_from. now rewrite length_map, length_seq. Qed.

Lemma in_range_from (a b i : Z) :
  In i (Orchestrator.range_from a b) <-> a <= i < b.
Proof.
  unfold Orchestrator.range_from. rewrite in_map_iff. split.
  - intros (k & <- & Hk). apply in_seq in Hk. lia.
  - intro H. exists (Z.to_nat (i - a)). split; [lia|].
    apply in_seq. lia.
Qed.

Lemma start_client_run (file_size tcp_connections udp_connections : Z)
    (before after : list (result (bytes * address)))
    (udp_port tcp_port : Z) (msg : bytes) (sender : address) :
  Forall passed_over before ->
  Server.offer_message udp_port tcp_port = Some msg ->
  Orchestrator.start_client file_size tcp_connections udp_connections
    (before ++ Ok (msg, sender) :: after)
  = Some (map (fun i => Orchestrator.TcpWorker i (fst sender) tcp_port file_size)
            (Orchestrator.range_from 1 (tcp_connections + 1))
          ++ map (fun i =>
                    Orchestrator.UdpWorker i (fst sender) udp_port file_size)
               (Orchestrator.range_from 1 (udp_connections + 1))).
Proof.
  intros Hbefore Hmsg. unfold Orchestrator.start_client.
  rewrite (listen_passes_over _ _ Hbefore).
  cbn [Client.listen_for_offers bind fst snd Client.offer].
  pose proof (offer_message_fields _ _ _ Hmsg) as (L & Hm & Ht & Hu & Hp).
  assert (Hstep : Client.offer_step (recv_buf BUFFER_SIZE msg) sender
                  = Ok (Some (fst sender, tcp_port, udp_port))).
  { rewrite recv_buf_short by (unfold len, BUFFER_SIZE; lia).
    rewrite is_offer_step.
    - now rewrite Hu, Hp.
    - unfold is_offer. rewrite Hm, Ht, !Z.eqb_refl.
      assert (E : (9 <=? len msg) = true)
        by (apply Z.leb_le; unfold len; lia).
      now rewrite E. }
  rewrite Hstep. reflexivity.
Qed.

End Launch.

(** X22.  Once an offer has arrived, [start_client] starts one thread per
    requested connection, the TCP ones first, numbered from 1: in all
    [max(K,0) + max(M,0)] threads.  Every TCP worker is given the sender's
    IP and the offer's TCP port, every UDP worker the sender's IP and the
    offer's UDP port, and all get the same file size.  Before any offer
    has arrived no thread is started. *)
Theorem start_client_launches
    (file_size tcp_connections udp_connections : Z)
    (before after : list (result (bytes * address)))
    (udp_port tcp_port : Z) (msg : bytes) (sender : address) :
  Forall passed_over before ->
  Server.offer_message udp_port tcp_port = Some msg ->
  Orchestrator.start_client file_size tcp_connections udp_connections before
  = None
  /\ exists tcp_workers udp_workers,
       Orchestrator.start_client file_size tcp_connections udp_connections
         (before ++ Ok (msg, sender) :: after)
       = Some (tcp_workers ++ udp_workers)
       /\ length tcp_workers = Z.to_nat tcp_connections
       /\ length udp_workers = Z.to_nat udp_connections
       /\ (forall w, In w tcp_workers <->
             exists i, 1 <= i <= tcp_connections
                       /\ w = Orchestrator.TcpWorker i (fst sender) tcp_port
                                file_size)
       /\ (forall w, In w udp_workers <->
             exists i, 1 <= i <= udp_connections
                       /\ w = Orchestrator.UdpWorker i (fst sender) udp_port
                                file_size).
Proof.
  intros Hbefore Hmsg. split.
  - unfold Orchestrator.start_client.
    pose proof (listen_passes_over before [] Hbefore) as H.
    rewrite app_nil_r in H. rewrite H. reflexivity.
  - do 2 eexists.
    split; [exact (start_client_run _ _ _ _ _ _ _ _ _ Hbefore Hmsg)|].
    rewrite !length_map, !length_range_from.
    split; [f_equal; lia|]. split; [f_equal; lia|].
    split; intro w; rewrite in_map_iff; split.
    + intros (i & <- & Hi). apply in_range_from in Hi. exists i.
      split; [lia | reflexivity].
    + intros (i & Hi & ->). exists i. split; [reflexivity|].
      apply in_range_from. lia.
    + intros (i & <- & Hi). apply in_range_from in Hi. exists i.
      split; [lia | reflexivity].
    + intros (i & Hi & ->). exists i. split; [reflexivity|].
      apply in_range_from. lia.
Qed.

Lemma start_client_launches_witness :
  let msg := [xab; xcd; xdc; xba; x02; x37; x25; xff; x98] in
  let peer := ("10.0.0.7"%string, 14117) in
  exists tcp_workers udp_workers,
    Orchestrator.start_client 10240 1 2 ([Raise OSError] ++ Ok (msg, peer) :: [])
    = Some (tcp_workers ++ udp_workers)
    /\ length tcp_workers = 1%nat
    /\ length udp_workers = 2%nat.
Proof.
  intros msg peer.
  destruct (start_client_launches 10240 1 2 [Raise OSError] []
              UDP_PORT TCP_PORT msg peer)
    as (_ & tw & uw & H & Ht & Hu & _).
  - repeat constructor.
  - reflexivity.
  - exists tw, uw. split; [exact H|]. split; [exact Ht | exact Hu].
Defined.

(** X23.  Discovery leads to the sockets the server listens on.  Every
    datagram [send_offers] broadcasts is the same 9-byte offer, sent to
    the discovery port; a client that takes it as its first offer directs
    every TCP worker to the port the accept socket of [start_tcp_server]
    is bound to, and every UDP worker to the port the request socket of
    [start_udp_server] is bound to, at the IP the offer came from. *)
Theorem broadcast_offer_leads_to_bound_ports
    (rounds : nat) (file_size tcp_connections udp_connections : Z)
    (before after : list (result (bytes * address))) (sender : address)
    (accepts : list (result address))
    (requests : list (result (bytes * address))) :
  Forall passed_over before ->
  exists msg workers,
    Server.send_offers rounds
    = Ok (repeat (msg, ("<broadcast>"%string, UDP_PORT)) rounds)
    /\ len msg = 9
    /\ Orchestrator.start_client file_size tcp_connections udp_connections
         (before ++ Ok (msg, sender) :: after) = Some workers
    /\ forall w, In w workers ->
         match w with
         | Orchestrator.TcpWorker _ ip port _ =>
             ip = fst sender
             /\ option_map snd (Server.bound_to (Server.start_tcp_server accepts))
                = Some port
         | Orchestrator.UdpWorker _ ip port _ =>
             ip = fst sender
             /\ option_map snd (Server.bound_to (Server.start_udp_server requests))
                = Some port
         end.
Proof.
  intro Hbefore.
  destruct (offer_message_ok UDP_PORT TCP_PORT) as [msg Hmsg];
    [unfold UDP_PORT; lia | unfold TCP_PORT; lia |].
  exists msg. eexists. split; [|split; [|split]].
  - unfold Server.send_offers. rewrite Hmsg. reflexivity.
  - apply offer_message_fields in Hmsg as (L & _). unfold len. now rewrite L.
  - exact (start_client_run _ _ _ _ _ _ _ _ _ Hbefore Hmsg).
  - intros w Hw. apply in_app_or in Hw as [Hw|Hw];
      apply in_map_iff in Hw as (i & <- & _); split; reflexivity.
Qed.

Lemma broadcast_offer_leads_to_bound_ports_witness :
  exists msg workers,
    Server.send_offers 3
    = Ok (repeat (msg, ("<broadcast>"%string, UDP_PORT)) 3)
    /\ len msg = 9
    /\ Orchestrator.start_client 10240 1 1
         ([Raise OSError] ++ Ok (msg, ("10.0.0.7"%string, 14117)) :: [])
       = Some workers.
Proof.
  destruct (broadcast_offer_leads_to_bound_ports 3 10240 1 1 [Raise OSError] []
              ("10.0.0.7"%string, 14117) [] [])
    as (msg & workers & H1 & H2 & H3 & _).
  - repeat constructor.
  - exists msg, workers. split; [exact H1|]. split; [exact H2 | exact H3].
Defined.
